(** * ChatGPT conversation exporter: Markdown conversion and batch export

    A shallow embedding of the extension's Markdown utilities
    ([MarkdownConverter]), of the service worker's download handler
    ([Background]) and of the content script's sidebar loader and batch export
    ([Content]), followed by the properties proved about them.

    JavaScript strings are sequences of UTF-16 code units; they are modelled
    as lists of code units, so that [length], [substring] and the character
    classes of the regular expressions mean what they mean in the source. *)

From Stdlib Require Import List NArith Bool Arith Lia Ascii String DecimalString.
Import ListNotations.

Set Warnings "-register-all".
Local Open Scope N_scope.

(** ** JavaScript strings *)
Module JS.

Definition char := N.
Definition jstring := list char.

(** A string literal of the source, given by its ASCII characters. *)
Definition lit (s : string) : jstring :=
  map N_of_ascii (list_ascii_of_string s).

Definition LF : char := 10.
Definition QUOTE : char := 34.

Fixpoint eqb (a b : jstring) : bool :=
  match a, b with
  | [], [] => true
  | x :: a', y :: b' => (x =? y) && eqb a' b'
  | _, _ => false
  end.

(** Truthiness of a string value: only the empty string is falsy. *)
Definition truthy (s : jstring) : bool :=
  match s with [] => false | _ => true end.

(** [a || b] on strings. *)
Definition or_else (a b : jstring) : jstring :=
  if truthy a then a else b.

(** WhiteSpace and LineTerminator code points of ECMAScript: the characters
    stripped by [trim] and matched by [\s]. *)
Definition isWhiteSpace (c : char) : bool :=
  (c =? 9) || (c =? 10) || (c =? 11) || (c =? 12) || (c =? 13) ||
  (c =? 32) || (c =? 160) || (c =? 0x1680) ||
  ((0x2000 <=? c) && (c <=? 0x200A)) ||
  (c =? 0x2028) || (c =? 0x2029) || (c =? 0x202F) || (c =? 0x205F) ||
  (c =? 0x3000) || (c =? 0xFEFF).

(** [\w]: ASCII letters, digits and underscore. *)
Definition isWordChar (c : char) : bool :=
  ((48 <=? c) && (c <=? 57)) || ((65 <=? c) && (c <=? 90)) ||
  ((97 <=? c) && (c <=? 122)) || (c =? 95).

Fixpoint dropWhile (p : char -> bool) (s : jstring) : jstring :=
  match s with
  | [] => []
  | c :: s' => if p c then dropWhile p s' else s
  end.

Fixpoint takeWhile (p : char -> bool) (s : jstring) : jstring :=
  match s with
  | [] => []
  | c :: s' => if p c then c :: takeWhile p s' else []
  end.

Definition trimStart (s : jstring) : jstring := dropWhile isWhiteSpace s.
Definition trimEnd (s : jstring) : jstring := rev (trimStart (rev s)).
Definition trim (s : jstring) : jstring := trimEnd (trimStart s).

(** [s.split(c)] for a one-character separator: never the empty array. *)
Fixpoint split (sep : char) (s : jstring) : list jstring :=
  match s with
  | [] => [[]]
  | c :: s' =>
      if c =? sep then [] :: split sep s'
      else match split sep s' with
           | h :: t => (c :: h) :: t
           | [] => [[c]]
           end
  end.

(** [parts.join(sep)]. *)
Fixpoint join (sep : jstring) (parts : list jstring) : jstring :=
  match parts with
  | [] => []
  | x :: rest =>
      match rest with
      | [] => x
      | _ :: _ => x ++ sep ++ join sep rest
      end
  end.

Fixpoint startsWith (s pre : jstring) : bool :=
  match pre, s with
  | [], _ => true
  | p :: pre', c :: s' => (c =? p) && startsWith s' pre'
  | _ :: _, [] => false
  end.

Fixpoint includes (s pat : jstring) : bool :=
  startsWith s pat ||
  match s with
  | [] => false
  | _ :: s' => includes s' pat
  end.

(** [s.replace(pat, rep)] with a string pattern: the first occurrence only. *)
Fixpoint replaceFirst (s pat rep : jstring) : jstring :=
  if startsWith s pat then rep ++ skipn (List.length pat) s
  else match s with
       | [] => []
       | c :: s' => c :: replaceFirst s' pat rep
       end.

(** [s.replace(/[class]/g, rep)]: every character of the class. *)
Definition replaceEach (p : char -> bool) (rep : jstring) (s : jstring) : jstring :=
  flat_map (fun c => if p c then rep else [c]) s.

(** [s.replace(/[class]+/g, rep)]: every maximal run of the class;
    [inRun] tells that the previous character belonged to the class. *)
Fixpoint replaceRunsFrom (p : char -> bool) (rep : jstring) (inRun : bool)
    (s : jstring) : jstring :=
  match s with
  | [] => []
  | c :: s' =>
      if p c then (if inRun then [] else rep) ++ replaceRunsFrom p rep true s'
      else c :: replaceRunsFrom p rep false s'
  end.

Definition replaceRuns (p : char -> bool) (rep : jstring) (s : jstring) : jstring :=
  replaceRunsFrom p rep false s.

Definition substring (from to : nat) (s : jstring) : jstring :=
  firstn (to - from) (skipn from s).

(** Decimal rendering of a number in a template literal. *)
Definition ofNat (n : nat) : jstring :=
  lit (NilEmpty.string_of_uint (Nat.to_uint n)).

Fixpoint mapiFrom {A B} (i : nat) (f : nat -> A -> B) (l : list A) : list B :=
  match l with
  | [] => []
  | x :: l' => f i x :: mapiFrom (S i) f l'
  end.

(** [array.map((x, index) => ...)]. *)
Definition mapi {A B} (f : nat -> A -> B) (l : list A) : list B :=
  mapiFrom 0 f l.

End JS.

Import JS.

Declare Scope js_scope.
Delimit Scope js_scope with js.
Notation "a +++ b" := (@app JS.char a b) (at level 60, right associativity) : js_scope.
Notation "a == b" := (JS.eqb a (lit b)) (at level 70, no associativity) : js_scope.
Local Open Scope js_scope.

(** ** The document tree *)
Module Dom.

(** A node of the document: a text node, an element, or a node of another
    kind (a comment).  [tag] is the element's [tagName.toLowerCase()], the
    only form in which the source reads a tag; [attributes] maps attribute
    names to values.  The parent back-reference of the DOM is carried by
    the functions below as the chain of ancestors of the node, nearest
    first, up to the root of the fragment. *)
Inductive Node :=
| Text (data : jstring)
| Comment (data : jstring)
| Element (tag : jstring) (attributes : list (jstring * jstring))
          (childNodes : list Node).

Definition isElement (n : Node) : bool :=
  match n with Element _ _ _ => true | _ => false end.

Definition children (n : Node) : list Node :=
  match n with Element _ _ ks => ks | _ => [] end.

(** Type selector [t]. *)
Definition isTag (t : string) (n : Node) : bool :=
  match n with Element t' _ _ => t' == t | _ => false end.

Fixpoint lookup (name : jstring) (attrs : list (jstring * jstring)) : option jstring :=
  match attrs with
  | [] => None
  | (k, v) :: rest => if JS.eqb k name then Some v else lookup name rest
  end.

(** [node.getAttribute(name)], [None] for [null]. *)
Definition getAttribute (name : string) (n : Node) : option jstring :=
  match n with Element _ attrs _ => lookup (lit name) attrs | _ => None end.

(** [node.getAttribute(name) || dflt]. *)
Definition getAttributeOr (name : string) (dflt : jstring) (n : Node) : jstring :=
  match getAttribute name n with
  | Some v => or_else v dflt
  | None => dflt
  end.

(** [node.className]: the class attribute, empty when absent. *)
Definition className (n : Node) : jstring :=
  match getAttribute "class" n with Some v => v | None => [] end.

Definition isAsciiWhitespace (c : char) : bool :=
  (c =? 9) || (c =? 10) || (c =? 12) || (c =? 13) || (c =? 32).

Fixpoint tokensFrom (cur : jstring) (s : jstring) : list jstring :=
  match s with
  | [] => match cur with [] => [] | _ => [cur] end
  | c :: s' =>
      if isAsciiWhitespace c
      then match cur with [] => tokensFrom [] s' | _ => cur :: tokensFrom [] s' end
      else tokensFrom (cur ++ [c]) s'
  end.

Fixpoint dedup (seen : list jstring) (l : list jstring) : list jstring :=
  match l with
  | [] => []
  | x :: l' =>
      if existsb (JS.eqb x) seen then dedup seen l' else x :: dedup (x :: seen) l'
  end.

(** [Array.from(node.classList)]: the class tokens, each once, in order. *)
Definition classList (n : Node) : list jstring :=
  dedup [] (tokensFrom [] (className n)).

(** Class selector [.c]. *)
Definition hasClass (c : string) (n : Node) : bool :=
  isElement n && existsb (fun t => t == c) (classList n).

(** Attribute selector [[class*="s"]]. *)
Definition classContains (s : string) (n : Node) : bool :=
  match getAttribute "class" n with
  | Some v => includes v (lit s)
  | None => false
  end.

(** [node.textContent]: the text of the node's text descendants. *)
Fixpoint textContent (n : Node) : jstring :=
  match n with
  | Text d => d
  | Comment d => d
  | Element _ _ ks =>
      flat_map (fun k => match k with Comment _ => [] | _ => textContent k end) ks
  end.

(** The node and its descendants in document order. *)
Fixpoint subtree (n : Node) : list Node :=
  n :: match n with
       | Element _ _ ks => flat_map subtree ks
       | _ => []
       end.

Definition descendants (n : Node) : list Node := flat_map subtree (children n).

(** [node.querySelector(sel)]: the first descendant matching [sel]. *)
Definition querySelector (sel : Node -> bool) (n : Node) : option Node :=
  find sel (descendants n).

(** [node.closest(sel)]: the node itself or its nearest matching ancestor. *)
Definition closest (sel : Node -> bool) (anc : list Node) (n : Node) : option Node :=
  find sel (n :: anc).

(** The matches of [sel] among [n] and its descendants, in document order,
    each handed to [f] together with its chain of ancestors. *)
Definition selectWith {B} (sel : Node -> bool) (f : list Node -> Node -> B)
    : list Node -> Node -> list B :=
  fix select (anc : list Node) (n : Node) {struct n} : list B :=
    match n with
    | Element _ _ ks =>
        (if sel n then [f anc n] else []) ++
        (fix selectAll (l : list Node) : list B :=
           match l with
           | [] => []
           | k :: l' => select (n :: anc) k ++ selectAll l'
           end) ks
    | _ => []
    end.

(** [Array.from(node.querySelectorAll(sel)).map(f)], where [f] also receives
    the ancestors of the element it is applied to. *)
Definition querySelectorAllWith {B} (sel : Node -> bool)
    (f : list Node -> Node -> B) (anc : list Node) (n : Node) : list B :=
  match n with
  | Element _ _ ks => flat_map (selectWith sel f (n :: anc)) ks
  | _ => []
  end.

(** [node.parentElement], from the chain of ancestors. *)
Definition parentElement (anc : list Node) : option Node :=
  match anc with [] => None | p :: _ => Some p end.

End Dom.

Import Dom.

(** ** Markdown conversion utilities *)
Module MarkdownConverter.

Section Transducer.

(** [String.prototype.toLowerCase], a built-in of the host over the Unicode
    case tables; the converter applies it to the text of a language
    indicator. *)
Variable toLowerCase : jstring -> jstring.

(** The first class of [classes] carrying a [language-] or [lang-] prefix,
    with the prefix removed. *)
Fixpoint languageOfClasses (classes : list jstring) : option jstring :=
  match classes with
  | [] => None
  | cls :: rest =>
      if startsWith cls (lit "language-")
      then Some (replaceFirst cls (lit "language-") [])
      else if startsWith cls (lit "lang-")
      then Some (replaceFirst cls (lit "lang-") [])
      else languageOfClasses rest
  end.

(** [s.match(/language-(\w+)/)], the captured group of the first match. *)
Fixpoint matchLanguage (s : jstring) : option jstring :=
  let here :=
    if startsWith s (lit "language-")
    then match takeWhile isWordChar (skipn 9 s) with
         | [] => None
         | w => Some w
         end
    else None in
  match here with
  | Some w => Some w
  | None => match s with
            | [] => None
            | _ :: s' => matchLanguage s'
            end
  end.

(** Detect programming language from code block: the language that the
    source returns when it returns.  It throws when [className] of the
    closest element is not a string; [Exceptions.detectLanguageThrows]
    below tells when. *)
Definition detectLanguage (anc : list Node) (preElement : Node) : jstring :=
  let fromCode :=
    match querySelector (isTag "code") preElement with
    | Some codeElement => languageOfClasses (classList codeElement)
    | None => None
    end in
  match fromCode with
  | Some language => language
  | None =>
      let langIndicator :=
        match closest (hasClass "bg-black") anc preElement with
        | Some box => querySelector (hasClass "text-xs") box
        | None => None
        end in
      match langIndicator with
      | Some indicator => toLowerCase (trim (textContent indicator))
      | None =>
          match closest (classContains "language-") anc preElement with
          | Some parent =>
              match matchLanguage (className parent) with
              | Some word => word
              | None => []
              end
          | None => []
          end
      end
  end.

(** [processList], over the function [processNode] it calls back. *)
Definition processListWith (processNode : list Node -> Node -> jstring)
    (anc : list Node) (listElement : Node) (ordered : bool) : jstring :=
  let contents :=
    match listElement with
    | Element _ _ childNodes =>
        flat_map (fun child =>
                    if isTag "li" child
                    then [trim (processNode (listElement :: anc) child)]
                    else [])
                 childNodes
    | _ => []
    end in
  join [LF]
    (mapi (fun index content =>
             (if ordered then ofNat (index + 1) +++ lit ". " else lit "- ")
             +++ content)
          contents).

Definition isPipe (c : char) : bool := c =? 124.

Definition tableRow (cells : list jstring) : jstring :=
  lit "| " +++ join (lit " | ") cells +++ lit " |".

(** The body of the [rows.forEach] loop, from row number [rowIndex] on:
    the lines pushed on [result]. *)
Fixpoint tableLines (rowIndex : nat) (rows : list (list jstring)) : list jstring :=
  match rows with
  | [] => []
  | cellContents :: rest =>
      [tableRow cellContents] ++
      (if Nat.eqb rowIndex 0
       then [tableRow (map (fun _ => lit "---") cellContents)]
       else []) ++
      tableLines (S rowIndex) rest
  end.

(** The converted, trimmed and escaped cells of every row of the table. *)
Definition tableCells (processNode : list Node -> Node -> jstring)
    (anc : list Node) (tableElement : Node) : list (list jstring) :=
  querySelectorAllWith (isTag "tr")
    (fun rowAnc row =>
       querySelectorAllWith (fun n => isTag "th" n || isTag "td" n)
         (fun cellAnc cell =>
            replaceEach isPipe (lit "\|") (trim (processNode cellAnc cell)))
         rowAnc row)
    anc tableElement.

(** [processTable], over the function [processNode] it calls back. *)
Definition processTableWith (processNode : list Node -> Node -> jstring)
    (anc : list Node) (tableElement : Node) : jstring :=
  let rows := tableCells processNode anc tableElement in
  if Nat.eqb (List.length rows) 0 then []
  else join [LF] (tableLines 0 rows).

(** Recursively process DOM nodes and convert to Markdown; [anc] is the
    chain of ancestors of [node]. *)
Fixpoint processNode (anc : list Node) (node : Node) {struct node} : jstring :=
  match node with
  | Text data => data
  | Comment _ => []
  | Element tagName _ childNodes =>
      let children := List.concat (map (processNode (node :: anc)) childNodes) in
      if tagName == "h1" then lit "# " +++ children +++ [LF; LF]
      else if tagName == "h2" then lit "## " +++ children +++ [LF; LF]
      else if tagName == "h3" then lit "### " +++ children +++ [LF; LF]
      else if tagName == "h4" then lit "#### " +++ children +++ [LF; LF]
      else if tagName == "h5" then lit "##### " +++ children +++ [LF; LF]
      else if tagName == "h6" then lit "###### " +++ children +++ [LF; LF]
      else if (tagName == "strong") || (tagName == "b")
      then lit "**" +++ children +++ lit "**"
      else if (tagName == "em") || (tagName == "i")
      then lit "*" +++ children +++ lit "*"
      else if tagName == "u" then lit "<u>" +++ children +++ lit "</u>"
      else if (tagName == "s") || (tagName == "strike") || (tagName == "del")
      then lit "~~" +++ children +++ lit "~~"
      else if tagName == "code" then
        match parentElement anc with
        | Some parent =>
            if isTag "pre" parent then children
            else lit "`" +++ children +++ lit "`"
        | None => lit "`" +++ children +++ lit "`"
        end
      else if tagName == "pre" then
        let codeElement := querySelector (isTag "code") node in
        let language := detectLanguage anc node in
        let codeContent :=
          match codeElement with
          | Some code => textContent code
          | None => textContent node
          end in
        [LF] +++ lit "```" +++ language +++ [LF] +++ codeContent +++ [LF]
        +++ lit "```" +++ [LF; LF]
      else if tagName == "ul" then processListWith processNode anc node false +++ [LF]
      else if tagName == "ol" then processListWith processNode anc node true +++ [LF]
      else if tagName == "li" then children
      else if tagName == "a" then
        let href := getAttributeOr "href" [] node in
        lit "[" +++ children +++ lit "](" +++ href +++ lit ")"
      else if tagName == "img" then
        let src := getAttributeOr "src" [] node in
        let alt := getAttributeOr "alt" (lit "image") node in
        lit "![" +++ alt +++ lit "](" +++ src +++ lit ")"
      else if tagName == "p" then children +++ [LF; LF]
      else if tagName == "br" then [LF]
      else if tagName == "hr" then [LF] +++ lit "---" +++ [LF; LF]
      else if tagName == "blockquote" then
        join [LF] (map (fun line => lit "> " +++ line) (split LF children))
        +++ [LF; LF]
      else if tagName == "table" then processTableWith processNode anc node +++ [LF; LF]
      else if (tagName == "div") || (tagName == "span") || (tagName == "section")
              || (tagName == "article")
      then children
      else children
  end.

Definition processList := processListWith processNode.
Definition processTable := processTableWith processNode.

(** [element.cloneNode(true)]: a copy of the subtree, detached from the
    ancestors [anc] the element has in the live document. *)
Definition cloneNode (anc : list Node) (element : Node) : list Node * Node :=
  ([], element).

(** Convert HTML content to Markdown; [None] is a missing element, [anc]
    the ancestors of the element in the live document. *)
Definition htmlToMarkdown (anc : list Node) (element : option Node) : jstring :=
  match element with
  | None => []
  | Some e =>
      let '(cloneAnc, clone) := cloneNode anc e in
      trim (processNode cloneAnc clone)
  end.

End Transducer.

Record Message := { role : jstring; content : jstring }.

(** A conversation object; [None] is an absent property. *)
Record Conversation := {
  id : option jstring;
  title : jstring;
  date : option jstring;
  url : option jstring;
  messages : list Message
}.

Definition present (v : option jstring) : bool :=
  match v with Some s => truthy s | None => false end.

Definition valueOf (v : option jstring) : jstring :=
  match v with Some s => s | None => [] end.

(** [message.role === 'user' ? 'User' : 'Assistant']. *)
Definition roleLabel (message : Message) : jstring :=
  if role message == "user" then lit "User" else lit "Assistant".

(** The lines pushed for one message by the loop of [formatConversation]. *)
Definition messageLines (message : Message) : list jstring :=
  [lit "## " +++ roleLabel message; []; content message; []; lit "---"; []].

(** The [lines] array of [formatConversation] before it is joined. *)
Definition conversationLines (conversation : Conversation) : list jstring :=
  let lines := [lit "# " +++ or_else (title conversation) (lit "Untitled Conversation"); []] in
  let lines :=
    if present (date conversation)
    then lines ++ [lit "**Date**: " +++ valueOf (date conversation)]
    else lines in
  let lines :=
    if present (url conversation)
    then lines ++ [lit "**URL**: " +++ valueOf (url conversation)]
    else lines in
  let lines := lines ++ [[]; lit "---"; []] in
  fold_left (fun lines message => lines ++ messageLines message)
            (messages conversation) lines.

(** Format a complete conversation as Markdown. *)
Definition formatConversation (conversation : Conversation) : jstring :=
  trim (join [LF] (conversationLines conversation)) +++ [LF].

(** The character class of the first [replace]: the characters
    < > : / \ | ? * and the double quote. *)
Definition isInvalidChar (c : char) : bool :=
  existsb (N.eqb c) (lit "<>:/\|?*" ++ [QUOTE]).

Definition isUnderscore (c : char) : bool := c =? 95.

(** [s.replace(/^_|_$/g, '')]: one underscore at the start and one at the end. *)
Definition trimUnderscores (s : jstring) : jstring :=
  let s1 := match s with
            | c :: s' => if isUnderscore c then s' else s
            | [] => []
            end in
  match rev s1 with
  | c :: r => if isUnderscore c then rev r else s1
  | [] => []
  end.

(** The four [replace] calls of [sanitizeFilename], in order. *)
Definition cleanTitle (title : jstring) : jstring :=
  trimUnderscores
    (replaceRuns isUnderscore (lit "_")
       (replaceRuns isWhiteSpace (lit "_")
          (replaceEach isInvalidChar [] title))).

(** Sanitize a string for use as a filename. *)
Definition sanitizeFilename (title : jstring) : jstring :=
  if negb (truthy title) then lit "untitled"
  else or_else (substring 0 100 (cleanTitle title)) (lit "untitled").

End MarkdownConverter.

(** ** Exceptions of the converter *)
Module Exceptions.

Import MarkdownConverter.

(** An [svg] element is an [SVGElement]: its [className] is an
    [SVGAnimatedString], an object without a [match] method, and not a
    string.  The tree does not tell the namespace of an element: the
    elements with this tag are the ones taken as SVG elements. *)
Definition isSvgElement (n : Node) : bool := isTag "svg" n.

(** [detectLanguage] throws a [TypeError]: no class of the code element
    and no language indicator gives the language, and the closest element
    whose class holds [language-] is an SVG element, so that
    [parent.className.match] is not a function. *)
Definition detectLanguageThrows (anc : list Node) (preElement : Node) : bool :=
  let fromCode :=
    match querySelector (isTag "code") preElement with
    | Some codeElement => languageOfClasses (classList codeElement)
    | None => None
    end in
  match fromCode with
  | Some _ => false
  | None =>
      let langIndicator :=
        match closest (hasClass "bg-black") anc preElement with
        | Some box => querySelector (hasClass "text-xs") box
        | None => None
        end in
      match langIndicator with
      | Some _ => false
      | None =>
          match closest (classContains "language-") anc preElement with
          | Some parent => isSvgElement parent
          | None => false
          end
      end
  end.

(** [processNode] throws: it converts the children of every element before
    it looks at the tag, so it calls [detectLanguage] for every [pre]
    element among the node and its descendants, and the exception of any
    of these calls leaves it. *)
Definition processNodeThrows (anc : list Node) (node : Node) : bool :=
  existsb (fun throws => throws)
          (selectWith (isTag "pre") detectLanguageThrows anc node).

(** How a call of the converter ends. *)
Inductive Completion :=
| Returned (markdown : jstring)
| TypeError.

(** [htmlToMarkdown] with its exception. *)
Definition htmlToMarkdownCompletion (toLowerCase : jstring -> jstring)
    (anc : list Node) (element : option Node) : Completion :=
  match element with
  | None => Returned []
  | Some e =>
      let '(cloneAnc, clone) := cloneNode anc e in
      if processNodeThrows cloneAnc clone then TypeError
      else Returned (trim (processNode toLowerCase cloneAnc clone))
  end.

End Exceptions.

(** ** JavaScript sets of strings *)
Module JSSet.

(** A [Set] of strings: its elements in insertion order, each once. *)
Definition t := list jstring.

Definition has (s : t) (x : jstring) : bool := existsb (JS.eqb x) s.

Definition add (s : t) (x : jstring) : t := if has s x then s else s ++ [x].

(** [new Set(array)]. *)
Definition ofArray (a : list jstring) : t := fold_left add a [].

(** [Array.from(set)]. *)
Definition toArray (s : t) : list jstring := s.

End JSSet.

(** ** The service worker *)
Module Background.

(** What [chrome.downloads.download] does with a request: it resolves with
    a download id or the [try] block of [downloadFile] throws. *)
Inductive DownloadOutcome :=
| Started (downloadId : nat)
| Rejected (message : jstring).

(** Who sent a download message: the batch run, for the candidate of the
    given index, or a single-conversation export. *)
Inductive Sender :=
| FromBatch (index : nat)
| FromSingle.

Record SinkMessage := {
  sender : Sender;
  filename : jstring;
  fileContent : jstring;
  conversationId : option jstring
}.

(** The state shared by the scripts of the extension: the array stored under
    [exportedConversations] in [chrome.storage.local] ([None] when the key
    is absent), the service worker's [exportedConversations] set, the
    download messages sent to the service worker, and the links clicked in
    the page.  Reads and writes of the storage are taken to succeed. *)
Record World := {
  stored : option (list jstring);
  worker : JSSet.t;
  sinkMessages : list SinkMessage;
  clicks : list jstring
}.

Definition setStored (v : option (list jstring)) (w : World) : World :=
  {| stored := v; worker := worker w;
     sinkMessages := sinkMessages w; clicks := clicks w |}.

Definition setWorker (s : JSSet.t) (w : World) : World :=
  {| stored := stored w; worker := s;
     sinkMessages := sinkMessages w; clicks := clicks w |}.

Definition logMessage (m : SinkMessage) (w : World) : World :=
  {| stored := stored w; worker := worker w;
     sinkMessages := sinkMessages w ++ [m]; clicks := clicks w |}.

Definition logClick (href : jstring) (w : World) : World :=
  {| stored := stored w; worker := worker w;
     sinkMessages := sinkMessages w; clicks := clicks w ++ [href] |}.

Record Response := {
  success : bool;
  downloadId : option nat;
  error : option jstring
}.

(** Save exported conversations to storage. *)
Definition saveExportedConversations (w : World) : World :=
  setStored (Some (JSSet.toArray (worker w))) w.

(** Download content as a file.  The file name and the content only matter
    to the browser, whose answer is [outcome]; they are kept in the message
    logged by the sender. *)
Definition downloadFile (outcome : DownloadOutcome) (conversationId : option jstring)
    (w : World) : World * Response :=
  match outcome with
  | Started downloadId =>
      let w :=
        if MarkdownConverter.present conversationId
        then saveExportedConversations
               (setWorker (JSSet.add (worker w) (MarkdownConverter.valueOf conversationId)) w)
        else w in
      (w, {| success := true; downloadId := Some downloadId; error := None |})
  | Rejected message =>
      (w, {| success := false; downloadId := None; error := Some message |})
  end.

End Background.

(** ** The content script *)
Module Content.

Import MarkdownConverter Background.
Local Open Scope nat_scope.

Record ConversationLink := {
  link_id : jstring;
  link_title : jstring;
  link_href : jstring
}.

(** *** The sidebar loader *)

(** What the page shows to the loader: whether a [nav] element exists (with
    the scroll position of its scroll container), the height of the
    container at each scroll, and the number of conversation links found by
    each query of the sidebar, the query before the loop being number 0. *)
Record Sidebar := {
  nav : option nat;
  scrollHeight : nat -> nat;
  linkCount : nat -> nat
}.

(** The variables of the loader, the scroll position of the container, and
    the number of scroll iterations made so far, which the model counts. *)
Record LoaderState := {
  lastCount : nat;
  currentCount : nat;
  noChangeCount : nat;
  attempts : nat;
  scrollTop : nat;
  iterations : nat
}.

Definition maxScrollAttempts : nat := 50.

(** The [while] loop of [loadAllSidebarConversations]; [None] when [fuel]
    iterations were not enough to leave it. *)
Fixpoint scrollLoop (fuel : nat) (page : Sidebar) (st : LoaderState)
    : option LoaderState :=
  if Nat.ltb (attempts st) maxScrollAttempts then
    match fuel with
    | O => None
    | S fuel' =>
        let k := S (iterations st) in
        let top := scrollHeight page k in
        let last := currentCount st in
        let current := linkCount page k in
        if Nat.eqb current last then
          let noChange := S (noChangeCount st) in
          if Nat.leb 3 noChange
          then Some {| lastCount := last; currentCount := current;
                       noChangeCount := noChange; attempts := attempts st;
                       scrollTop := top; iterations := k |}
          else scrollLoop fuel' page
                 {| lastCount := last; currentCount := current;
                    noChangeCount := noChange; attempts := S (attempts st);
                    scrollTop := top; iterations := k |}
        else scrollLoop fuel' page
               {| lastCount := last; currentCount := current;
                  noChangeCount := 0; attempts := S (attempts st);
                  scrollTop := top; iterations := k |}
    end
  else Some st.

(** What a run of the loader leaves: the count it returns, the number of
    scroll iterations it made and the scroll position of the container
    ([None] when the page has no sidebar). *)
Record Loaded := {
  returned : nat;
  scrolled : nat;
  position : option nat
}.

(** Scroll the sidebar to load all conversations.  The scroll container is
    the sidebar itself when no scrollable element is found inside it, so it
    exists whenever the sidebar does. *)
Definition loadAllSidebarConversations (fuel : nat) (page : Sidebar) : option Loaded :=
  match nav page with
  | None => Some {| returned := 0; scrolled := 0; position := None |}
  | Some top =>
      match scrollLoop fuel page
              {| lastCount := 0; currentCount := linkCount page 0;
                 noChangeCount := 0; attempts := 0;
                 scrollTop := top; iterations := 0 |} with
      | Some st =>
          Some {| returned := currentCount st; scrolled := iterations st;
                  position := Some 0 |}
      | None => None
      end
  end.

(** *** Tracking of exported conversations *)

(** Get set of already exported conversation IDs. *)
Definition getExportedConversations (w : World) : JSSet.t :=
  JSSet.ofArray (match stored w with Some a => a | None => [] end).

(** Mark a conversation as exported in storage. *)
Definition markAsExported (conversationId : option jstring) (w : World) : World :=
  if negb (present conversationId) then w
  else
    let exported := JSSet.add (getExportedConversations w) (valueOf conversationId) in
    setStored (Some (JSSet.toArray exported)) w.

(** What comes back from a download message: [chrome.runtime.lastError] is
    set and the message was not handled, or the service worker ran
    [downloadFile] with the given outcome and replied. *)
Inductive Reply :=
| Undelivered (message : jstring)
| Delivered (outcome : DownloadOutcome).

(** *** Export of the current conversation *)

(** One run of [exportCurrentConversation]: what extraction finds in the
    page and what comes back from the download message. *)
Record SingleExport := {
  current : option Conversation;
  singleReply : Reply
}.

Definition exportCurrentConversation (e : SingleExport) (w : World) : World * Response :=
  match current e with
  | None =>
      (w, {| success := false; downloadId := None;
             error := Some (lit "Could not extract conversation") |})
  | Some conversation =>
      let markdown := formatConversation conversation in
      let name := sanitizeFilename (title conversation) +++ lit ".md" in
      let w := logMessage {| sender := FromSingle; filename := name;
                             fileContent := markdown;
                             conversationId := id conversation |} w in
      let '(w, response) :=
        match singleReply e with
        | Undelivered _ =>
            (w, {| success := true; downloadId := None; error := None |})
        | Delivered outcome => downloadFile outcome (id conversation) w
        end in
      let w :=
        if success response && present (id conversation)
        then markAsExported (id conversation) w
        else w in
      (w, response)
  end.

(** *** Batch export *)

Record Results := {
  total : nat;
  exported : nat;
  skipped : nat;
  failed : nat;
  errors : list jstring
}.

(** What [document.querySelector] does with the selector made of the href
    of the link: it returns the link element, returns [null], or throws
    because the text is not a valid selector (an href with a double quote,
    for one), with the message of the exception. *)
Inductive Lookup :=
| Found
| Missing
| Invalid (message : jstring).

(** What the page and the other scripts do while the run handles one
    candidate: what the lookup of the link element does, the exports of
    the current conversation that complete while the run waits for the
    conversation to load, whether the conversation loads in time, what
    extraction finds, and what comes back from the download message.  Every
    wait of the run ends: the wait for the conversation is bounded by its
    timeout, and the download message is answered or fails.  The progress
    events, which nothing in the run reads back, are left out. *)
Record ItemEnv := {
  linkLookup : Lookup;
  concurrent : list SingleExport;
  loaded : bool;
  extracted : option Conversation;
  reply : Reply
}.

(** The lookup returned an element: the variable [linkElement] is truthy. *)
Definition linkElement (e : ItemEnv) : bool :=
  match linkLookup e with Found => true | _ => false end.

Record BatchState := {
  world : World;
  exportedSet : JSSet.t;
  results : Results
}.

Definition countSkipped (r : Results) : Results :=
  {| total := total r; exported := exported r; skipped := S (skipped r);
     failed := failed r; errors := errors r |}.

Definition countFailed (diagnostic : jstring) (r : Results) : Results :=
  {| total := total r; exported := exported r; skipped := skipped r;
     failed := S (failed r); errors := errors r ++ [diagnostic] |}.

Definition countExported (r : Results) : Results :=
  {| total := total r; exported := S (exported r); skipped := skipped r;
     failed := failed r; errors := errors r |}.

Definition runConcurrent (es : list SingleExport) (w : World) : World :=
  fold_left (fun w e => fst (exportCurrentConversation e w)) es w.

(** The body of the [for] loop of [exportAllConversations] for the candidate
    [link] of index [i].  An exception of the lookup and a download message
    that is not delivered end in the [catch] of the loop body. *)
Definition exportItem (i : nat) (e : ItemEnv) (link : ConversationLink)
    (st : BatchState) : BatchState :=
  if JSSet.has (exportedSet st) (link_id link) then
    {| world := world st; exportedSet := exportedSet st;
       results := countSkipped (results st) |}
  else
  match linkLookup e with
  | Invalid message =>
    {| world := world st; exportedSet := exportedSet st;
       results := countFailed
                    (lit "Error: " +++ link_title link +++ lit " - " +++ message)
                    (results st) |}
  | Missing =>
    {| world := world st; exportedSet := exportedSet st;
       results := countFailed (lit "Link not found: " +++ link_title link) (results st) |}
  | Found =>
    let w := logClick (link_href link) (world st) in
    let w := runConcurrent (concurrent e) w in
    if negb (loaded e) then
      {| world := w; exportedSet := exportedSet st;
         results := countFailed (lit "Timeout loading: " +++ link_title link) (results st) |}
    else
      match extracted e with
      | None =>
          {| world := w; exportedSet := exportedSet st;
             results := countFailed (lit "Failed to extract: " +++ link_title link)
                          (results st) |}
      | Some conversation =>
          let markdown := formatConversation conversation in
          let name := sanitizeFilename (title conversation) +++ lit ".md" in
          let w := logMessage {| sender := FromBatch i; filename := name;
                                 fileContent := markdown;
                                 conversationId := Some (link_id link) |} w in
          match reply e with
          | Undelivered message =>
              {| world := w; exportedSet := exportedSet st;
                 results := countFailed
                              (lit "Error: " +++ link_title link +++ lit " - " +++ message)
                              (results st) |}
          | Delivered outcome =>
              let '(w, _) := downloadFile outcome (Some (link_id link)) w in
              let w := markAsExported (Some (link_id link)) w in
              {| world := w;
                 exportedSet := JSSet.add (exportedSet st) (link_id link);
                 results := countExported (results st) |}
          end
      end
  end.

(** The [for] loop from index [i] on, over the remaining candidates. *)
Fixpoint exportLoop (env : nat -> ItemEnv) (i : nat) (links : list ConversationLink)
    (st : BatchState) : BatchState :=
  match links with
  | [] => st
  | link :: rest => exportLoop env (S i) rest (exportItem i (env i) link st)
  end.

Inductive BatchResult :=
| BatchFailure (error : jstring)
| BatchSuccess (results : Results).

Definition initialState (w : World) (links : list ConversationLink) : BatchState :=
  {| world := w;
     exportedSet := getExportedConversations w;
     results := {| total := List.length links; exported := 0; skipped := 0;
                   failed := 0; errors := [] |} |}.

(** Batch export all conversations from the sidebar: [links] is the list of
    conversation links found once the sidebar is loaded. *)
Definition exportAllConversations (env : nat -> ItemEnv)
    (links : list ConversationLink) (w : World) : World * BatchResult :=
  if Nat.eqb (List.length links) 0
  then (w, BatchFailure (lit "No conversations found in sidebar"))
  else
    let st := exportLoop env 0 links (initialState w links) in
    (world st, BatchSuccess (results st)).

(** The state of the run when its loop reaches the candidate of index [i]. *)
Definition stateAt (env : nat -> ItemEnv) (links : list ConversationLink)
    (w : World) (i : nat) : BatchState :=
  exportLoop env 0 (firstn i links) (initialState w links).

End Content.

(** ** Notions used in the statements *)
Module Notions.

Import MarkdownConverter.

(** The string has two adjacent underscores. *)
Fixpoint underscoreRun (s : jstring) : bool :=
  match s with
  | [] => false
  | a :: s' =>
      match s' with
      | [] => false
      | b :: _ => (isUnderscore a && isUnderscore b) || underscoreRun s'
      end
  end.

Definition startsWithUnderscore (s : jstring) : bool :=
  match s with c :: _ => isUnderscore c | [] => false end.

Definition endsWithUnderscore (s : jstring) : bool :=
  startsWithUnderscore (rev s).

(** A character the sanitizer keeps as it is: not one of the removed
    characters, not white space, not an underscore. *)
Definition plain (c : char) : bool :=
  negb (isInvalidChar c) && negb (isWhiteSpace c) && negb (isUnderscore c).

Definition isText (n : Node) : bool :=
  match n with Text _ => true | _ => false end.

(** The download message was sent by the batch run for candidate [i]. *)
Definition fromBatch (i : nat) (m : Background.SinkMessage) : bool :=
  match Background.sender m with
  | Background.FromBatch j => Nat.eqb i j
  | Background.FromSingle => false
  end.

(** The number of Download Sink calls of the batch run for candidate [i]. *)
Definition sinkCalls (i : nat) (w : Background.World) : nat :=
  List.length (filter (fromBatch i) (Background.sinkMessages w)).

(** The sum of the three counters of a tally. *)
Definition tally (r : Content.Results) : nat :=
  (Content.exported r + Content.skipped r + Content.failed r)%nat.

(** What one candidate does to the tally: exactly one counter grows by
    one, and a diagnostic is appended exactly when it is [failed]. *)
Inductive counted (r r' : Content.Results) : Prop :=
| counted_exported :
    Content.exported r' = S (Content.exported r) ->
    Content.skipped r' = Content.skipped r ->
    Content.failed r' = Content.failed r ->
    Content.errors r' = Content.errors r -> counted r r'
| counted_skipped :
    Content.exported r' = Content.exported r ->
    Content.skipped r' = S (Content.skipped r) ->
    Content.failed r' = Content.failed r ->
    Content.errors r' = Content.errors r -> counted r r'
| counted_failed (diagnostic : jstring) :
    Content.exported r' = Content.exported r ->
    Content.skipped r' = Content.skipped r ->
    Content.failed r' = S (Content.failed r) ->
    Content.errors r' = Content.errors r ++ [diagnostic] ->
    counted r r'.

(** The Download Sink reports failure for the candidate: the service
    worker answers the download message with [success: false]. *)
Definition sinkRejects (e : Content.ItemEnv) : bool :=
  match Content.reply e with
  | Content.Delivered (Background.Rejected _) => true
  | _ => false
  end.

(** The number of consecutive scroll iterations, ending with iteration [n],
    that left the number of links unchanged. *)
Fixpoint streak (page : Content.Sidebar) (n : nat) : nat :=
  match n with
  | O => O
  | S m =>
      if Nat.eqb (Content.linkCount page (S m)) (Content.linkCount page m)
      then S (streak page m)
      else O
  end.

End Notions.

(** ** Sample inputs *)
Module Samples.

Import MarkdownConverter Background Content.
Local Open Scope nat_scope.

(** The text made of the given ASCII lines, separated by line feeds. *)
Definition text (lines : list string) : jstring := join [LF] (map lit lines).

(** The conversation titled Greeting, without date and url, of a user
    message and an assistant message. *)
Definition greeting (conversationId : option jstring) : Conversation :=
  {| id := conversationId; title := lit "Greeting"; date := None; url := None;
     messages := [ {| role := lit "user"; content := lit "Hi" |};
                   {| role := lit "assistant"; content := lit "Hello" |} ] |}.

Definition element (tag : string) (childNodes : list Node) : Node :=
  Element (lit tag) [] childNodes.

(** A table with the header row H1, H2 and the data row a, b. *)
Definition sampleTable : Node :=
  element "table"
    [element "tr" [element "th" [Text (lit "H1")]; element "th" [Text (lit "H2")]];
     element "tr" [element "td" [Text (lit "a")]; element "td" [Text (lit "b")]]].

(** A table whose only cell holds a pipe. *)
Definition pipeTable : Node :=
  element "table" [element "tr" [element "td" [Text (lit "a|b")]]].

(** A table without rows. *)
Definition emptyTable : Node := element "table" [Text (lit "no rows")].

(** Lower-casing of the ASCII letters, as [toLowerCase] acts on ASCII text. *)
Definition asciiLower (s : jstring) : jstring :=
  map (fun c => if (65 <=? c)%N && (c <=? 90)%N then (c + 32)%N else c) s.

(** A code element holding one line of text, and a code block around it. *)
Definition sampleCode : Node := element "code" [Text (lit "x = 1")].
Definition samplePre : Node := element "pre" [sampleCode].
Definition sampleParagraph : Node := element "p" [sampleCode].

(** A code block without code element, in a foreign object. *)
Definition svgCodeBlock : Node := element "pre" [Text (lit "x")].

Definition svgForeignObject : Node := element "foreignobject" [svgCodeBlock].

(** The foreign object in an element with the tag [box] and the class
    [language-js], and a [div] around that element. *)
Definition languageElement (box : string) : Node :=
  Element (lit box) [(lit "class", lit "language-js")] [svgForeignObject].

Definition languageBox (box : string) : Node := element "div" [languageElement box].

Definition svgElement : Node := languageElement "svg".

Definition svgFragment : Node := languageBox "svg".

Definition emptyWorld : World :=
  {| stored := None; worker := []; sinkMessages := []; clicks := [] |}.

Definition linkA : ConversationLink :=
  {| link_id := lit "aaaa-1111"; link_title := lit "First";
     link_href := lit "/c/aaaa-1111" |}.

Definition linkB : ConversationLink :=
  {| link_id := lit "bbbb-2222"; link_title := lit "Second";
     link_href := lit "/c/bbbb-2222" |}.

Definition conversationOf (link : ConversationLink) : Conversation :=
  {| id := Some (link_id link); title := link_title link;
     date := Some (lit "2026-01-30");
     url := Some (lit "https://chatgpt.com" +++ link_href link);
     messages := [ {| role := lit "user"; content := lit "Hi" |} ] |}.

(** A candidate that is found, loads, is extracted and downloaded with the
    given reply, while the given other exports complete. *)
Definition itemOf (link : ConversationLink) (others : list SingleExport)
    (r : Reply) : ItemEnv :=
  {| linkLookup := Found; concurrent := others; loaded := true;
     extracted := Some (conversationOf link); reply := r |}.

(** A run over the two links during which, while the first conversation
    loads, an export of the second conversation by the change watcher
    completes. *)
Definition racingEnv (i : nat) : ItemEnv :=
  match i with
  | O => itemOf linkA
           [ {| current := Some (conversationOf linkB);
                singleReply := Delivered (Started 7) |} ]
           (Delivered (Started 1))
  | _ => itemOf linkB [] (Delivered (Started 2))
  end.

(** A run whose downloads are all rejected by the browser. *)
Definition rejectingEnv (i : nat) : ItemEnv :=
  itemOf linkA [] (Delivered (Rejected (lit "Invalid filename"))).

(** A link whose href holds a double quote. *)
Definition linkC : ConversationLink :=
  {| link_id := lit "cccc" ++ [QUOTE] ++ lit "3"; link_title := lit "Third";
     link_href := lit "/c/cccc" ++ [QUOTE] ++ lit "3" |}.

(** A run in which the browser rejects the download of the first
    candidate, the link of the second is not found, and the lookup of the
    third throws. *)
Definition failingEnv (i : nat) : ItemEnv :=
  match i with
  | O => itemOf linkA [] (Delivered (Rejected (lit "Invalid filename")))
  | S O => {| linkLookup := Missing; concurrent := []; loaded := false;
              extracted := None; reply := Undelivered [] |}
  | _ => {| linkLookup := Invalid (lit "not a valid selector"); concurrent := [];
            loaded := false; extracted := None; reply := Undelivered [] |}
  end.

(** A store that already tracks the first conversation. *)
Definition trackedWorld : World :=
  {| stored := Some [link_id linkA]; worker := [link_id linkA];
     sinkMessages := []; clicks := [] |}.

(** A sidebar that shows one more link after every scroll. *)
Definition growingSidebar : Sidebar :=
  {| nav := Some 120; scrollHeight := fun k => 1000 + 400 * k;
     linkCount := fun k => 20 + k |}.

(** A sidebar whose 28 links are all shown after the second scroll. *)
Definition settledSidebar : Sidebar :=
  {| nav := Some 0; scrollHeight := fun _ => 3000;
     linkCount := fun k => Nat.min (20 + 4 * k) 28 |}.

End Samples.

(** ** The service worker's messages and restarts *)
Module Lifecycle.

Import MarkdownConverter Background Content.

(** The shared state together with the auto-sync flag: the service worker's
    [autoSyncEnabled] variable and the value stored under [autoSync] in
    [chrome.storage.local] ([None] when the key is absent). *)
Record Extension := {
  shared : World;
  autoSyncEnabled : bool;
  storedAutoSync : option bool
}.

Definition withShared (w : World) (x : Extension) : Extension :=
  {| shared := w; autoSyncEnabled := autoSyncEnabled x;
     storedAutoSync := storedAutoSync x |}.

(** The script of the service worker is loaded: its variables get their
    initial values, an empty set and [false]; the storage is untouched. *)
Definition load (x : Extension) : Extension :=
  {| shared := setWorker [] (shared x); autoSyncEnabled := false;
     storedAutoSync := storedAutoSync x |}.

(** Initialize service worker. *)
Definition initialize (x : Extension) : Extension :=
  {| shared :=
       match stored (shared x) with
       | Some array => setWorker (JSSet.ofArray array) (shared x)
       | None => shared x
       end;
     autoSyncEnabled :=
       match storedAutoSync x with
       | Some enabled => enabled
       | None => autoSyncEnabled x
       end;
     storedAutoSync := storedAutoSync x |}.

(** A start of the service worker during which nothing is handled before
    [initialize] has completed: the script is loaded and [initialize] runs
    to its end.  The script does not wait for [initialize]; the steps of a
    start, between which messages can be handled, are [wake], [serve] and
    [resolve] below. *)
Definition start (x : Extension) : Extension := initialize (load x).

(** Clear exported conversations tracking. *)
Definition clearExportedTracking (x : Extension) : Extension :=
  withShared (setStored None (setWorker [] (shared x))) x.

(** The requests the message listener of the service worker tells apart;
    a download request comes with what the browser does with it. *)
Inductive Request :=
| Download (conversationId : option jstring) (outcome : DownloadOutcome)
| GetExported
| ClearExported
| SetAutoSync (enabled : bool)
| GetAutoSync
| ExportProgress
| Unknown.

(** What [sendResponse] is called with, [NoAnswer] when it is not called. *)
Inductive Answer :=
| Downloaded (response : Response)
| Exported (ids : list jstring)
| Succeeded
| Enabled (enabled : bool)
| NoAnswer.

(** Handle messages from content script and popup. *)
Definition onMessage (request : Request) (x : Extension) : Extension * Answer :=
  match request with
  | Download conversationId outcome =>
      let '(w, response) := downloadFile outcome conversationId (shared x) in
      (withShared w x, Downloaded response)
  | GetExported => (x, Exported (JSSet.toArray (worker (shared x))))
  | ClearExported => (clearExportedTracking x, Succeeded)
  | SetAutoSync enabled =>
      ({| shared := shared x; autoSyncEnabled := enabled;
          storedAutoSync := Some enabled |}, Succeeded)
  | GetAutoSync => (x, Enabled (autoSyncEnabled x))
  | ExportProgress => (x, NoAnswer)
  | Unknown => (x, NoAnswer)
  end.

(** Handle extension installation; [install] tells that the reason is
    [install]. *)
Definition onInstalled (install : bool) (x : Extension) : Extension :=
  if install
  then {| shared := setStored (Some []) (shared x);
          autoSyncEnabled := autoSyncEnabled x;
          storedAutoSync := Some false |}
  else x.

(** The popup's handler of Clear tracking; [confirmed] is the answer to its
    confirmation dialog.  It writes the storage itself. *)
Definition handleClearTracking (confirmed : bool) (x : Extension) : Extension :=
  if confirmed then withShared (setStored (Some []) (shared x)) x else x.

(** *** The steps of a start *)

(** The storage read of [initialize]: none under way; requested, when
    [initialize] has reached its [await]; or served by the browser with the
    values the two keys had then, its promise not yet resolved. *)
Inductive Reading :=
| Idle
| Requested
| Served (exportedConversations : option (list jstring)) (autoSync : option bool).

(** The service worker with the storage read of its [initialize]. *)
Record Worker := {
  extension : Extension;
  reading : Reading
}.

(** The statements of [initialize] after its [await], for the values read. *)
Definition assign (exportedConversations : option (list jstring))
    (autoSync : option bool) (x : Extension) : Extension :=
  {| shared :=
       match exportedConversations with
       | Some array => setWorker (JSSet.ofArray array) (shared x)
       | None => shared x
       end;
     autoSyncEnabled :=
       match autoSync with
       | Some enabled => enabled
       | None => autoSyncEnabled x
       end;
     storedAutoSync := storedAutoSync x |}.

(** The service worker is started: its script runs to the end, which gives
    the variables their initial values, registers the listeners and calls
    [initialize] without waiting for it. *)
Definition wake (w : Worker) : Worker :=
  {| extension := load (extension w); reading := Requested |}.

(** The browser serves the storage read. *)
Definition serve (w : Worker) : Worker :=
  match reading w with
  | Requested =>
      {| extension := extension w;
         reading := Served (stored (shared (extension w)))
                           (storedAutoSync (extension w)) |}
  | _ => w
  end.

(** The promise of the storage read resolves and [initialize] runs to its
    end. *)
Definition resolve (w : Worker) : Worker :=
  match reading w with
  | Served exportedConversations autoSync =>
      {| extension := assign exportedConversations autoSync (extension w);
         reading := Idle |}
  | _ => w
  end.

(** The message listener handles a request, whatever the state of the
    storage read. *)
Definition handle (request : Request) (w : Worker) : Worker * Answer :=
  let '(x, answer) := onMessage request (extension w) in
  ({| extension := x; reading := reading w |}, answer).

(** A start during which nothing else happens. *)
Definition restart (w : Worker) : Worker := resolve (serve (wake w)).

(** A worker that is not reading the storage. *)
Definition settled (x : Extension) : Worker := {| extension := x; reading := Idle |}.

End Lifecycle.

(** ** The page of the content script *)
Module Page.

Import MarkdownConverter Background Content.
Local Open Scope nat_scope.

(** What the content script reads of the page: the child nodes of the
    document and the location. *)
Record Page := {
  document : list Node;
  pathname : jstring;
  href : jstring
}.

(** The elements of the document in document order, each with its chain of
    ancestors, nearest first. *)
Definition elements (doc : list Node) : list (list Node * Node) :=
  flat_map (selectWith isElement (fun anc n => (anc, n)) []) doc.

(** [document.querySelectorAll(sel)], for a selector that may look at the
    ancestors of the element. *)
Definition documentQuerySelectorAll (sel : list Node -> Node -> bool)
    (doc : list Node) : list Node :=
  map snd (filter (fun p => sel (fst p) (snd p)) (elements doc)).

(** [document.querySelector(sel)]. *)
Definition documentQuerySelector (sel : list Node -> Node -> bool)
    (doc : list Node) : option Node :=
  hd_error (documentQuerySelectorAll sel doc).

(** Attribute selectors [[name]], [[name="v"]] and [[name^="v"]]. *)
Definition hasAttribute (name : string) (n : Node) : bool :=
  match getAttribute name n with Some _ => true | None => false end.

Definition attributeIs (name : string) (v : jstring) (n : Node) : bool :=
  match getAttribute name n with Some x => JS.eqb x v | None => false end.

Definition attributeStartsWith (name : string) (v : jstring) (n : Node) : bool :=
  match getAttribute name n with Some x => startsWith x v | None => false end.

(** Descendant combinator: some ancestor has the tag. *)
Definition under (tag : string) (anc : list Node) : bool :=
  existsb (isTag tag) anc.

(** The characters of [[a-f0-9-]]. *)
Definition isIdChar (c : char) : bool :=
  ((97 <=? c) && (c <=? 102))%N || ((48 <=? c) && (c <=? 57))%N || (c =? 45)%N.

(** [s.match(/\/c\/([a-f0-9-]+)/)], the captured group of the first match. *)
Fixpoint matchConversationId (s : jstring) : option jstring :=
  let here :=
    if startsWith s (lit "/c/")
    then match takeWhile isIdChar (skipn 3 s) with
         | [] => None
         | w => Some w
         end
    else None in
  match here with
  | Some w => Some w
  | None => match s with
            | [] => None
            | _ :: s' => matchConversationId s'
            end
  end.

(** Extract conversation ID from the current URL. *)
Definition getConversationIdFromUrl (p : Page) : option jstring :=
  matchConversationId (pathname p).

(** The selector [nav a[href^="/c/"]]. *)
Definition conversationLinkSelector (anc : list Node) (n : Node) : bool :=
  isTag "a" n && attributeStartsWith "href" (lit "/c/") n && under "nav" anc.

(** Get all conversation links from the sidebar.  The [url] property of a
    link object, which nothing reads, is [https://chatgpt.com] followed by
    its [href]. *)
Definition getAllConversationLinks (p : Page) : list ConversationLink :=
  map (fun link =>
         let href := valueOf (getAttribute "href" link) in
         {| link_id := replaceFirst href (lit "/c/") [];
            link_title := or_else (trim (textContent link)) (lit "Untitled");
            link_href := href |})
      (documentQuerySelectorAll conversationLinkSelector (document p)).

(** *** The title of the conversation *)

Definition isDigit (c : char) : bool := ((48 <=? c) && (c <=? 57))%N.

(** The canonical form of a character under the [i] flag, as far as a
    pattern of ASCII characters can tell: ASCII letters in upper case, any
    other character itself. *)
Definition canonical (c : char) : char :=
  if ((97 <=? c) && (c <=? 122))%N then (c - 32)%N else c.

(** [s] starts with the ASCII text [pat], letter case ignored; the rest. *)
Fixpoint stripIgnoringCase (pat s : jstring) : option jstring :=
  match pat with
  | [] => Some s
  | p :: pat' =>
      match s with
      | c :: s' =>
          if (canonical c =? canonical p)%N then stripIgnoringCase pat' s' else None
      | [] => None
      end
  end.

(** [/^pat$/i]. *)
Definition isIgnoringCase (pat : string) (s : jstring) : bool :=
  match stripIgnoringCase (lit pat) s with
  | Some [] => true
  | _ => false
  end.

(** [/^pat/i]. *)
Definition startsIgnoringCase (pat : string) (s : jstring) : bool :=
  match stripIgnoringCase (lit pat) s with
  | Some _ => true
  | None => false
  end.

Definition startsWithDigit (s : jstring) : bool :=
  match s with c :: _ => isDigit c | [] => false end.

(** [/^GPT-?\d/i]. *)
Definition looksLikeGpt (s : jstring) : bool :=
  match stripIgnoringCase (lit "GPT") s with
  | Some rest =>
      match rest with
      | c :: rest' => ((c =? 45)%N && startsWithDigit rest') || isDigit c
      | [] => false
      end
  | None => false
  end.

(** [/^\d+\.?\d*$/]. *)
Definition isNumber (s : jstring) : bool :=
  match takeWhile isDigit s with
  | [] => false
  | _ =>
      match dropWhile isDigit s with
      | [] => true
      | c :: rest => (c =? 46)%N && forallb isDigit rest
      end
  end.

(** [/^o\d+/i]. *)
Definition looksLikeO (s : jstring) : bool :=
  match stripIgnoringCase (lit "o") s with
  | Some rest => startsWithDigit rest
  | None => false
  end.

(** [invalidTitlePatterns.some(pattern => pattern.test(title))]. *)
Definition matchesInvalidPattern (title : jstring) : bool :=
  isIgnoringCase "ChatGPT" title
  || isIgnoringCase "New chat" title
  || looksLikeGpt title
  || isNumber title
  || looksLikeO title
  || startsIgnoringCase "claude" title
  || isIgnoringCase "model" title.

Definition isValidTitle (title : jstring) : bool :=
  if negb (truthy title) || (List.length title <? 2) then false
  else negb (matchesInvalidPattern title).

(** The three selectors of the active sidebar link. *)
Definition activeLinkSelectors : list (list Node -> Node -> bool) :=
  [ (fun anc n => conversationLinkSelector anc n
                  && hasClass "bg-token-sidebar-surface-secondary" n);
    (fun anc n => conversationLinkSelector anc n && classContains "bg-" n);
    (fun anc n =>
       isTag "a" n && attributeStartsWith "href" (lit "/c/") n
       && (fix underItem (anc : list Node) : bool :=
             match anc with
             | [] => false
             | a :: rest =>
                 (isTag "li" a && classContains "bg-" a && under "nav" rest)
                 || underItem rest
             end) anc) ].

(** The three selectors of the title in the main content area. *)
Definition headerSelectors : list (list Node -> Node -> bool) :=
  [ (fun _ n => isElement n && attributeIs "data-testid" (lit "conversation-title") n);
    (fun anc n => isTag "h1" n && under "main" anc);
    (fun anc n => isTag "h1" n && under "header" anc) ].

(** The first result of [f] over the list, as the [for] loops that return
    from inside find it. *)
Fixpoint firstResult {A B} (f : A -> option B) (l : list A) : option B :=
  match l with
  | [] => None
  | x :: rest => match f x with Some y => Some y | None => firstResult f rest end
  end.

Definition validTitleOf (n : Node) : option jstring :=
  let title := trim (textContent n) in
  if isValidTitle title then Some title else None.

(** Priority 1: the active conversation of the sidebar. *)
Definition titleFromActiveLink (p : Page) : option jstring :=
  firstResult
    (fun selector =>
       match documentQuerySelector selector (document p) with
       | Some activeLink =>
           match getConversationIdFromUrl p, getAttribute "href" activeLink with
           | Some currentId, Some linkHref =>
               if truthy currentId && truthy linkHref && includes linkHref currentId
               then validTitleOf activeLink
               else None
           | _, _ => None
           end
       | None => None
       end)
    activeLinkSelectors.

(** Priority 2: the sidebar link of the current URL. *)
Definition titleFromMatchingLink (p : Page) : option jstring :=
  match getConversationIdFromUrl p with
  | Some currentId =>
      if truthy currentId then
        match documentQuerySelector
                (fun anc n => isTag "a" n
                              && attributeIs "href" (lit "/c/" +++ currentId) n
                              && under "nav" anc)
                (document p) with
        | Some matchingLink => validTitleOf matchingLink
        | None => None
        end
      else None
  | None => None
  end.

(** Priority 3: the header of the main content area. *)
Definition titleFromHeader (p : Page) : option jstring :=
  firstResult
    (fun selector =>
       match documentQuerySelector selector (document p) with
       | Some element => validTitleOf element
       | None => None
       end)
    headerSelectors.

Definition isLineFeed (c : char) : bool := (c =? 10)%N.

(** Priority 4: the first user message, truncated. *)
Definition titleFromFirstMessage (p : Page) : option jstring :=
  match documentQuerySelector
          (fun _ n => isElement n && attributeIs "data-message-author-role" (lit "user") n)
          (document p) with
  | Some firstUserMessage =>
      let content := trim (textContent firstUserMessage) in
      if truthy content then
        let title := replaceEach isLineFeed (lit " ") (substring 0 50 content) in
        Some (title +++ (if 50 <? List.length content then lit "..." else []))
      else None
  | None => None
  end.

(** Get the conversation title from the page. *)
Definition getConversationTitle (p : Page) : jstring :=
  match titleFromActiveLink p with
  | Some title => title
  | None =>
      match titleFromMatchingLink p with
      | Some title => title
      | None =>
          match titleFromHeader p with
          | Some title => title
          | None =>
              match titleFromFirstMessage p with
              | Some title => title
              | None => lit "Untitled Conversation"
              end
          end
      end
  end.

(** *** Extraction *)

Section Extraction.

Variable toLowerCase : jstring -> jstring.

(** The message of one message group, if it gives one: the body of the
    [forEach] of [extractCurrentConversation]. *)
Definition messageOf (group : Node) : option Message :=
  match getAttribute "data-message-author-role" group with
  | Some role =>
      if negb (truthy role) || (negb (role == "user") && negb (role == "assistant"))
      then None
      else
        match Dom.querySelector
                (fun n => hasClass "markdown" n || hasClass "whitespace-pre-wrap" n)
                group with
        | Some contentElement =>
            let markdownContent := htmlToMarkdown toLowerCase [] (Some contentElement) in
            if truthy (trim markdownContent)
            then Some {| role := role; content := markdownContent |}
            else None
        | None => None
        end
  | None => None
  end.

(** Extract the current conversation from the page; [today] is the date of
    the day in ISO form. *)
Definition extractCurrentConversation (today : jstring) (p : Page) : option Conversation :=
  let messageGroups :=
    documentQuerySelectorAll
      (fun _ n => isElement n && hasAttribute "data-message-author-role" n)
      (document p) in
  if Nat.eqb (List.length messageGroups) 0 then None
  else
    let messages :=
      flat_map (fun group => match messageOf group with
                             | Some m => [m]
                             | None => []
                             end)
               messageGroups in
    if Nat.eqb (List.length messages) 0 then None
    else Some {| id := getConversationIdFromUrl p;
                 title := getConversationTitle p;
                 date := Some today;
                 url := Some (href p);
                 messages := messages |}.

End Extraction.

(** *** Waiting for a conversation *)

(** What one turn of the polling loop sees: the clock at the test of the
    loop, the id in the URL and the number of message groups. *)
Record Poll := {
  clock : nat;
  urlId : option jstring;
  groups : nat
}.

Definition sameId (currentId : option jstring) (expectedId : jstring) : bool :=
  match currentId with Some i => JS.eqb i expectedId | None => false end.

(** The loop of [waitForConversationLoad] from its turn [k] on: the result
    and the number of turns made, [None] when [fuel] turns were not enough
    to leave the loop.  The test [Date.now() - startTime < timeout] is
    written without the subtraction. *)
Fixpoint waitLoop (fuel : nat) (poll : nat -> Poll) (startTime timeout : nat)
    (expectedId : jstring) (k : nat) : option (bool * nat) :=
  if clock (poll k) <? startTime + timeout then
    match fuel with
    | O => None
    | S fuel' =>
        if sameId (urlId (poll k)) expectedId && (0 <? groups (poll k))
        then Some (true, S k)
        else waitLoop fuel' poll startTime timeout expectedId (S k)
    end
  else Some (false, k).

(** Wait for conversation to load after navigation. *)
Definition waitForConversationLoad (fuel : nat) (poll : nat -> Poll) (startTime : nat)
    (expectedId : jstring) (timeout : nat) : option (bool * nat) :=
  waitLoop fuel poll startTime timeout expectedId 0.

(** The href can stand between the double quotes of a selector as it is:
    it has no double quote, backslash or line break. *)
Definition selectorSafe (linkHref : jstring) : bool :=
  forallb (fun c => negb ((c =? 34) || (c =? 92) || (c =? 10) || (c =? 12)
                          || (c =? 13))%N)
          linkHref.

(** The link element that [exportAllConversations] looks up before it
    clicks: [document.querySelector] with the selector [a[href=...]] made
    of the href of the link, for an href that is [selectorSafe]. *)
Definition findLinkElement (linkHref : jstring) (p : Page) : option Node :=
  documentQuerySelector (fun _ n => isTag "a" n && attributeIs "href" linkHref n)
                        (document p).

End Page.

(** ** Auto-sync of the content script *)
Module Watcher.

Local Open Scope nat_scope.

(** The variables of the content script that auto-sync uses, and what the
    browser holds for it.  [observer] is [null] ([None]) or an observer
    that is connected or not.  [autoSyncTimeout] is the property of
    [window] with the id of the timer set last, [timers] the ids of the
    debounce timers that were set and have neither run nor been cleared,
    [nextTimer] the id that [setTimeout] returns next.  [exportsStarted]
    counts the calls of [exportCurrentConversation] by these timers and
    [sent] lists the [enabled] fields of the [setAutoSync] messages sent to
    the service worker, oldest first. *)
Record Sync := {
  autoSyncEnabled : bool;
  observer : option bool;
  lastMessageCount : nat;
  autoSyncTimeout : option nat;
  timers : list nat;
  nextTimer : nat;
  exportsStarted : nat;
  sent : list bool
}.

(** The script is loaded. *)
Definition initial : Sync :=
  {| autoSyncEnabled := false; observer := None; lastMessageCount := 0;
     autoSyncTimeout := None; timers := []; nextTimer := 1;
     exportsStarted := 0; sent := [] |}.

(** [if (observer) observer.disconnect()]. *)
Definition disconnect (o : option bool) : option bool :=
  match o with Some _ => Some false | None => None end.

(** Set up MutationObserver for auto-sync.  [container] tells whether the
    conversation container is found and [count] is the number of message
    groups of the page. *)
Definition setupAutoSync (container : bool) (count : nat) (s : Sync) : Sync :=
  if container
  then {| autoSyncEnabled := autoSyncEnabled s; observer := Some true;
          lastMessageCount := count; autoSyncTimeout := autoSyncTimeout s;
          timers := timers s; nextTimer := nextTimer s;
          exportsStarted := exportsStarted s; sent := sent s |}
  else {| autoSyncEnabled := autoSyncEnabled s; observer := disconnect (observer s);
          lastMessageCount := lastMessageCount s;
          autoSyncTimeout := autoSyncTimeout s;
          timers := timers s; nextTimer := nextTimer s;
          exportsStarted := exportsStarted s; sent := sent s |}.

(** [clearTimeout(id)]: the timer with this id, if it is still waiting, is
    dropped; [undefined] and the id of a timer that has run drop nothing. *)
Definition clearTimeout (id : option nat) (waiting : list nat) : list nat :=
  match id with
  | Some t => filter (fun u => negb (u =? t)) waiting
  | None => waiting
  end.

(** The callback of the observer; [currentCount] is the number of message
    groups of the page when it runs. *)
Definition mutationCallback (currentCount : nat) (s : Sync) : Sync :=
  if negb (autoSyncEnabled s) then s
  else if lastMessageCount s <? currentCount
  then {| autoSyncEnabled := autoSyncEnabled s; observer := observer s;
          lastMessageCount := currentCount;
          autoSyncTimeout := Some (nextTimer s);
          timers := clearTimeout (autoSyncTimeout s) (timers s) ++ [nextTimer s];
          nextTimer := S (nextTimer s);
          exportsStarted := exportsStarted s; sent := sent s |}
  else s.

(** The browser reports mutations: only a connected observer is called. *)
Definition mutation (currentCount : nat) (s : Sync) : Sync :=
  match observer s with
  | Some true => mutationCallback currentCount s
  | _ => s
  end.

(** The time of the timer [id] has come: when it is still waiting, its
    callback runs and calls [exportCurrentConversation]. *)
Definition fire (id : nat) (s : Sync) : Sync :=
  if existsb (fun u => u =? id) (timers s)
  then {| autoSyncEnabled := autoSyncEnabled s; observer := observer s;
          lastMessageCount := lastMessageCount s;
          autoSyncTimeout := autoSyncTimeout s;
          timers := filter (fun u => negb (u =? id)) (timers s);
          nextTimer := nextTimer s;
          exportsStarted := S (exportsStarted s); sent := sent s |}
  else s.

(** Enable auto-sync. *)
Definition enableAutoSync (container : bool) (count : nat) (s : Sync) : Sync :=
  let s1 := setupAutoSync container count
              {| autoSyncEnabled := true; observer := observer s;
                 lastMessageCount := lastMessageCount s;
                 autoSyncTimeout := autoSyncTimeout s;
                 timers := timers s; nextTimer := nextTimer s;
                 exportsStarted := exportsStarted s; sent := sent s |} in
  {| autoSyncEnabled := autoSyncEnabled s1; observer := observer s1;
     lastMessageCount := lastMessageCount s1;
     autoSyncTimeout := autoSyncTimeout s1;
     timers := timers s1; nextTimer := nextTimer s1;
     exportsStarted := exportsStarted s1; sent := sent s1 ++ [true] |}.

(** Disable auto-sync. *)
Definition disableAutoSync (s : Sync) : Sync :=
  {| autoSyncEnabled := false; observer := None;
     lastMessageCount := lastMessageCount s;
     autoSyncTimeout := autoSyncTimeout s;
     timers := timers s; nextTimer := nextTimer s;
     exportsStarted := exportsStarted s; sent := sent s ++ [false] |}.

(** The callback of the [getAutoSync] request of [initialize];
    [response] is the [enabled] field of the response, [None] when there
    is no response.  The [setupAutoSync] it defers is the event
    [SetupAutoSync] below. *)
Definition initialize (response : option bool) (s : Sync) : Sync :=
  match response with
  | Some true =>
      {| autoSyncEnabled := true; observer := observer s;
         lastMessageCount := lastMessageCount s;
         autoSyncTimeout := autoSyncTimeout s;
         timers := timers s; nextTimer := nextTimer s;
         exportsStarted := exportsStarted s; sent := sent s |}
  | _ => s
  end.

(** The deferred callback of a change of the URL. *)
Definition urlChanged (container : bool) (count : nat) (s : Sync) : Sync :=
  if autoSyncEnabled s then setupAutoSync container count s else s.

(** What happens to the content script: the messages [enableAutoSync] and
    [disableAutoSync], the response to [getAutoSync], the deferred
    callbacks of [initialize] and of a change of the URL, mutations of the
    page and timers that come due. *)
Inductive Event :=
| EnableAutoSync (container : bool) (count : nat)
| DisableAutoSync
| Initialized (response : option bool)
| SetupAutoSync (container : bool) (count : nat)
| UrlChanged (container : bool) (count : nat)
| Mutation (currentCount : nat)
| Fire (id : nat).

Definition step (s : Sync) (e : Event) : Sync :=
  match e with
  | EnableAutoSync container count => enableAutoSync container count s
  | DisableAutoSync => disableAutoSync s
  | Initialized response => initialize response s
  | SetupAutoSync container count => setupAutoSync container count s
  | UrlChanged container count => urlChanged container count s
  | Mutation currentCount => mutation currentCount s
  | Fire id => fire id s
  end.

Definition run (events : list Event) (s : Sync) : Sync :=
  fold_left step events s.

End Watcher.

(** ** Further notions *)
Module Vocabulary.

Import MarkdownConverter Background Content.

(** Every id of the service worker's set is in the stored array. *)
Definition covers (w : World) : Prop :=
  forall x, JSSet.has (worker w) x = true ->
            JSSet.has (getExportedConversations w) x = true.

(** The file name of a download message is a name inside the export folder:
    a stem and the suffix [.md], at most 103 characters in all, without any
    of the characters the sanitizer removes (so without slash or backslash)
    and without white space. *)
Definition safeFilename (m : SinkMessage) : Prop :=
  Forall (fun c => isInvalidChar c = false /\ isWhiteSpace c = false) (filename m)
  /\ (4 <= List.length (filename m) <= 103)%nat
  /\ exists stem, filename m = stem +++ lit ".md".

(** The string neither starts nor ends with white space. *)
Definition trimmed (s : jstring) : Prop :=
  (forall c, hd_error s = Some c -> isWhiteSpace c = false)
  /\ (forall c, hd_error (rev s) = Some c -> isWhiteSpace c = false).

(** The string is made of the characters of a conversation id in a URL:
    [a] to [f], digits and the hyphen. *)
Definition idText (s : jstring) : Prop :=
  Forall (fun c => Page.isIdChar c = true) s.

(** The first character of a title that no pattern of [isValidTitle] can
    start with: not a digit and, letter case ignored, none of C, G, M, N, O. *)
Definition freeStart (c : char) : bool :=
  negb (Page.isDigit c)
  && negb (existsb (N.eqb (Page.canonical c)) (lit "CGMNO")).

(** The turn of the polling loop sees the expected conversation loaded. *)
Definition loadedAt (poll : nat -> Page.Poll) (expectedId : jstring) (k : nat) : bool :=
  Page.sameId (Page.urlId (poll k)) expectedId && (0 <? Page.groups (poll k))%nat.

(** The diagnostic that the turn of a candidate pushes when it ends in one
    of the failure branches of the loop body; [None] when the turn reaches
    the end of the [try] block. *)
Definition diagnosticOf (e : ItemEnv) (link : ConversationLink) : option jstring :=
  match linkLookup e with
  | Invalid message =>
      Some (lit "Error: " +++ link_title link +++ lit " - " +++ message)
  | Missing => Some (lit "Link not found: " +++ link_title link)
  | Found =>
      if negb (loaded e) then Some (lit "Timeout loading: " +++ link_title link)
      else match extracted e with
           | None => Some (lit "Failed to extract: " +++ link_title link)
           | Some _ =>
               match reply e with
               | Undelivered message =>
                   Some (lit "Error: " +++ link_title link +++ lit " - " +++ message)
               | Delivered _ => None
               end
           end
  end.

(** At most one debounce timer waits, the one [window.autoSyncTimeout]
    names. *)
Definition debounced (s : Watcher.Sync) : Prop :=
  Watcher.timers s = []
  \/ exists t, Watcher.autoSyncTimeout s = Some t /\ Watcher.timers s = [t].

(** The number of mutation reports among the events, and of timers that
    came due. *)
Definition reports (events : list Watcher.Event) : nat :=
  List.length (filter (fun e => match e with Watcher.Mutation _ => true | _ => false end)
                      events).

Definition due (events : list Watcher.Event) : nat :=
  List.length (filter (fun e => match e with Watcher.Fire _ => true | _ => false end)
                      events).

(** The event can switch auto-sync on. *)
Definition enables (e : Watcher.Event) : bool :=
  match e with
  | Watcher.EnableAutoSync _ _ => true
  | Watcher.Initialized (Some true) => true
  | _ => false
  end.

(** The service worker handles the [setAutoSync] messages in order. *)
Definition deliver (messages : list bool) (x : Lifecycle.Extension) : Lifecycle.Extension :=
  fold_left (fun x enabled => fst (Lifecycle.onMessage (Lifecycle.SetAutoSync enabled) x))
            messages x.

(** The [enabled] field of the answer to [getAutoSync]. *)
Definition enabledOf (a : Lifecycle.Answer) : option bool :=
  match a with Lifecycle.Enabled b => Some b | _ => None end.

End Vocabulary.

(** ** Further sample inputs *)
Module Inputs.

Import MarkdownConverter Background Content Samples.
Local Open Scope nat_scope.

(** A list with the items A, B, C and text between them. *)
Definition sampleList (tag : string) : Node :=
  element tag [element "li" [Text (lit "A")]; Text (lit " ");
               element "li" [Text (lit "B")]; element "li" [Text (lit "C")]].

(** A code block whose code element carries a language class and markup. *)
Definition pythonBlock : Node :=
  element "pre"
    [Element (lit "code") [(lit "class", lit "hljs language-python")]
       [element "span" [Text (lit "x")]; Text (lit " = "); element "b" [Text (lit "1")]]].

(** A page with a sidebar of two conversations, the first one active, and
    the two messages of the greeting. *)
Definition samplePage : Page.Page :=
  {| Page.document :=
       [element "html"
          [element "nav"
             [Element (lit "a")
                [(lit "href", lit "/c/aaaa-1111"); (lit "class", lit "flex bg-token-x")]
                [element "div" [Text (lit " First ")]];
              Element (lit "a") [(lit "href", lit "/c/bbbb-2222")]
                [element "div" [Text (lit "Second")]]];
           element "main"
             [Element (lit "div") [(lit "data-message-author-role", lit "user")]
                [Element (lit "div") [(lit "class", lit "whitespace-pre-wrap")]
                   [Text (lit "Hi")]];
              Element (lit "div") [(lit "data-message-author-role", lit "assistant")]
                [Element (lit "div") [(lit "class", lit "markdown prose")]
                   [element "p" [Text (lit "Hello")]]];
              Element (lit "div") [(lit "data-message-author-role", lit "tool")]
                [Element (lit "div") [(lit "class", lit "markdown")]
                   [Text (lit "ignored")]]]]];
     Page.pathname := lit "/c/aaaa-1111";
     Page.href := lit "https://chatgpt.com/c/aaaa-1111" |}.

(** A page polled every 250 ms that shows the first conversation from the
    fourth turn on. *)
Definition slowPoll (k : nat) : Page.Poll :=
  {| Page.clock := 1000 + 250 * k;
     Page.urlId := if 3 <=? k then Some (link_id linkA) else Some (link_id linkB);
     Page.groups := if 3 <=? k then 2 else 0 |}.

(** A message arrived and auto-sync has not been switched off yet. *)
Definition waitingSync : Watcher.Sync :=
  Watcher.run [Watcher.EnableAutoSync true 2; Watcher.Mutation 3] Watcher.initial.

End Inputs.

(** * Properties *)

Import MarkdownConverter Exceptions Notions Samples.
Local Open Scope string_scope.
Local Open Scope list_scope.
Local Open Scope js_scope.

(** ** Strings *)

Lemma eqb_eq (a b : jstring) : JS.eqb a b = true <-> a = b.
Proof.
  revert b; induction a as [|x a IH]; intros [|y b]; simpl; split;
    try congruence; try reflexivity.
  - intros H. apply andb_true_iff in H as [Hx Hab].
    apply N.eqb_eq in Hx. apply IH in Hab. congruence.
  - intros H. injection H as -> ->.
    rewrite N.eqb_refl. simpl. now apply IH.
Qed.

Lemma eqb_neq (a b : jstring) : JS.eqb a b = false <-> a <> b.
Proof.
  destruct (JS.eqb a b) eqn:E; split; intros H; try congruence.
  - apply eqb_eq in E. contradiction.
  - intros ->. assert (JS.eqb b b = true) by now apply eqb_eq. congruence.
Qed.

Lemma join_snoc (sep : jstring) (l : list jstring) (x : jstring) :
  l <> [] -> join sep (l ++ [x]) = join sep l +++ sep +++ x.
Proof.
  induction l as [|y l IH]; [congruence|]. intros _.
  destruct l as [|z l].
  - reflexivity.
  - change (join sep ((y :: z :: l) ++ [x]))
      with (y +++ sep +++ join sep ((z :: l) ++ [x])).
    rewrite IH by discriminate.
    change (join sep (y :: z :: l)) with (y +++ sep +++ join sep (z :: l)).
    now rewrite <- !app_assoc.
Qed.

Lemma join_cons (sep x : jstring) (l : list jstring) :
  l <> [] -> join sep (x :: l) = x +++ sep +++ join sep l.
Proof. destruct l; [congruence|reflexivity]. Qed.

(** Trimming leaves alone a string that starts and ends with characters
    that are not white space, and removes a final line feed after it. *)
Lemma trim_line_feed (h c : char) (s : jstring) :
  isWhiteSpace h = false -> isWhiteSpace c = false ->
  trim (h :: s ++ [c; LF]) = h :: s ++ [c].
Proof.
  intros Hh Hc. unfold trim, trimStart. simpl. rewrite Hh.
  unfold trimEnd, trimStart.
  change (h :: s ++ [c; LF]) with ((h :: s) ++ [c; LF]).
  rewrite rev_app_distr. simpl. rewrite Hc.
  change (c :: rev s ++ [h]) with (c :: rev (h :: s)).
  change (c :: rev (h :: s)) with (rev [c] ++ rev (h :: s)).
  rewrite <- rev_app_distr, rev_involutive. reflexivity.
Qed.

Lemma fold_left_app_flat_map {A} (f : A -> list jstring) (l : list A) (init : list jstring) :
  fold_left (fun acc x => acc ++ f x) l init = init ++ flat_map f l.
Proof.
  revert init; induction l as [|x l IH]; intros init; simpl.
  - now rewrite app_nil_r.
  - rewrite IH. now rewrite <- app_assoc.
Qed.

(** ** The document formatter *)

(** The [lines] array is the title line, the metadata lines, the rule and
    the six lines of every message. *)
Lemma conversationLines_eq (c : Conversation) :
  conversationLines c =
    [lit "# " +++ or_else (title c) (lit "Untitled Conversation"); []]
    ++ (if present (date c) then [lit "**Date**: " +++ valueOf (date c)] else [])
    ++ (if present (url c) then [lit "**URL**: " +++ valueOf (url c)] else [])
    ++ [[]; lit "---"; []]
    ++ flat_map messageLines (messages c).
Proof.
  unfold conversationLines. rewrite fold_left_app_flat_map.
  destruct (present (date c)), (present (url c)); simpl; reflexivity.
Qed.

(** The lines always end with a rule followed by an empty line. *)
Lemma conversationLines_end (c : Conversation) :
  exists body, conversationLines c =
    ((lit "# " +++ or_else (title c) (lit "Untitled Conversation")) :: body)
    ++ [lit "---"] ++ [[]].
Proof.
  rewrite conversationLines_eq.
  set (first := lit "# " +++ or_else (title c) (lit "Untitled Conversation")).
  set (D := if present (date c) then _ else _).
  set (U := if present (url c) then _ else _).
  destruct (messages c) as [|m ms _] using rev_ind.
  - exists ([[]] ++ D ++ U ++ [[]]).
    repeat (rewrite <- app_assoc || rewrite <- app_comm_cons). reflexivity.
  - exists ([[]] ++ D ++ U ++ [[]; lit "---"; []] ++ flat_map messageLines ms
            ++ [lit "## " +++ roleLabel m; []; content m; []]).
    rewrite flat_map_app.
    repeat (rewrite <- app_assoc || rewrite <- app_comm_cons). reflexivity.
Qed.

(** Trimming the joined lines only removes the final line feed, which
    [formatConversation] puts back: the document is the lines joined by line
    feeds. *)
Lemma formatConversation_join (c : Conversation) :
  formatConversation c = join [LF] (conversationLines c).
Proof.
  unfold formatConversation.
  destruct (conversationLines_end c) as [body ->].
  set (first := lit "# " +++ or_else (title c) (lit "Untitled Conversation")).
  rewrite app_assoc.
  rewrite join_snoc by (destruct body; discriminate).
  rewrite join_snoc by discriminate.
  assert (Hj : exists s, join [LF] (first :: body) = 35 :: s).
  { destruct body; simpl; eexists; reflexivity. }
  destruct Hj as [s ->].
  assert (E : ((35 :: s) +++ [LF] +++ lit "---") +++ [LF] +++ []
              = 35 :: (s +++ [LF] +++ lit "--") +++ [45; LF]).
  { simpl. now rewrite <- !app_assoc. }
  rewrite E, trim_line_feed by reflexivity.
  simpl. now rewrite <- !app_assoc.
Qed.

(** C1 (as stated in the specification, refuted): the document produced for
    the Greeting conversation is not the string with a single empty line
    between the title and the first rule. *)
Lemma formatConversation_greeting_not_as_specified :
  formatConversation (greeting None)
  <> text ["# Greeting"; ""; "---"; ""; "## User"; ""; "Hi"; ""; "---"; "";
           "## Assistant"; ""; "Hello"; ""; "---"; ""].
Proof. intros H. vm_compute in H. discriminate H. Qed.

(** C1 (amended): for the conversation titled Greeting, without date and
    url, with the messages (user, Hi) and (assistant, Hello), the formatter
    produces the title, two empty lines (the one after the title and the one
    after the absent metadata), the rule, and the two message blocks, with a
    single final line feed.  The two empty lines are there for every
    conversation without date and url. *)
Theorem formatConversation_greeting (conversationId : option jstring)
    (t : jstring) (ms : list Message) :
  formatConversation (greeting conversationId)
  = text ["# Greeting"; ""; ""; "---"; ""; "## User"; ""; "Hi"; ""; "---"; "";
          "## Assistant"; ""; "Hello"; ""; "---"; ""]
  /\ formatConversation {| id := conversationId; title := t; date := None;
                           url := None; messages := ms |}
     = join [LF] ([lit "# " +++ or_else t (lit "Untitled Conversation");
                   []; []; lit "---"; []]
                  ++ flat_map messageLines ms).
Proof.
  split.
  - rewrite formatConversation_join. reflexivity.
  - rewrite formatConversation_join, conversationLines_eq. reflexivity.
Qed.

(** C10: in the produced document every message contributes the six lines
    heading, empty, content, empty, rule, empty; the heading is [## User]
    exactly when the role is the string [user], and [## Assistant] for every
    other role. *)
Theorem formatConversation_heading (c : Conversation) (m : Message) :
  formatConversation c
  = join [LF]
      ([lit "# " +++ or_else (title c) (lit "Untitled Conversation"); []]
       ++ (if present (date c) then [lit "**Date**: " +++ valueOf (date c)] else [])
       ++ (if present (url c) then [lit "**URL**: " +++ valueOf (url c)] else [])
       ++ [[]; lit "---"; []]
       ++ flat_map messageLines (messages c))
  /\ messageLines m
     = [lit "## " +++ roleLabel m; []; content m; []; lit "---"; []]
  /\ (lit "## " +++ roleLabel m = lit "## User" <-> role m = lit "user")
  /\ (role m <> lit "user" -> lit "## " +++ roleLabel m = lit "## Assistant").
Proof.
  split; [|split; [reflexivity|]].
  - rewrite formatConversation_join. now rewrite conversationLines_eq.
  - unfold roleLabel. destruct (role m == "user") eqn:E.
    + apply eqb_eq in E. split; [tauto|]. intros H. contradiction.
    + apply eqb_neq in E. split; [|reflexivity].
      split; [discriminate|intros H; contradiction].
Qed.

Lemma formatConversation_heading_witness :
  lit "## " +++ roleLabel {| role := lit "system"; content := lit "x" |}
  = lit "## Assistant".
Proof.
  apply (proj2 (proj2 (proj2
          (formatConversation_heading (greeting None)
             {| role := lit "system"; content := lit "x" |})))).
  simpl. discriminate.
Defined.

(** ** The filename sanitizer *)

Section Replace.

Variable p : char -> bool.

Lemma replaceEach_remove (s : jstring) :
  replaceEach p [] s = filter (fun c => negb (p c)) s.
Proof.
  induction s as [|c s IH]; [reflexivity|].
  unfold replaceEach in *. simpl. rewrite IH. now destruct (p c).
Qed.

Lemma replaceEach_none (rep s : jstring) :
  Forall (fun c => p c = false) s -> replaceEach p rep s = s.
Proof.
  induction 1 as [|c s Hc _ IH]; [reflexivity|].
  unfold replaceEach in *. simpl. now rewrite Hc, IH.
Qed.

Lemma replaceRunsFrom_none (rep : jstring) (inRun : bool) (s : jstring) :
  Forall (fun c => p c = false) s -> replaceRunsFrom p rep inRun s = s.
Proof.
  intros H. revert inRun. induction H as [|c s Hc _ IH]; intros inRun;
    [reflexivity|].
  simpl. now rewrite Hc, IH.
Qed.

(** Replacing the runs of a class by a character keeps every property
    that the character has. *)
Lemma replaceRunsFrom_Forall (P : char -> Prop) (r : char) (inRun : bool)
    (s : jstring) :
  P r -> Forall P s -> Forall P (replaceRunsFrom p [r] inRun s).
Proof.
  intros Hr H. revert inRun. induction H as [|c s Hc _ IH]; intros inRun;
    [constructor|].
  simpl. destruct (p c).
  - destruct inRun; simpl; auto.
  - constructor; auto.
Qed.

(** Once the runs of a class are replaced by a character outside the
    class, no character of the class is left. *)
Lemma replaceRunsFrom_clears (r : char) (inRun : bool) (s : jstring) :
  p r = false ->
  Forall (fun c => p c = false) (replaceRunsFrom p [r] inRun s).
Proof.
  intros Hr. revert inRun. induction s as [|c s IH]; intros inRun;
    [constructor|].
  simpl. destruct (p c) eqn:Hc.
  - destruct inRun; simpl; auto.
  - constructor; auto.
Qed.

End Replace.

Lemma underscoreRun_collapsed (inRun : bool) (s : jstring) :
  let r := replaceRunsFrom isUnderscore (lit "_") inRun s in
  underscoreRun r = false /\ (inRun = true -> startsWithUnderscore r = false).
Proof.
  revert inRun. induction s as [|c s IH]; intros inRun; [now split|].
  simpl. destruct (isUnderscore c) eqn:Hc.
  - destruct (IH true) as [Hrun Hhead]. specialize (Hhead eq_refl).
    destruct inRun; simpl; [now split|]. split; [|discriminate].
    destruct (replaceRunsFrom isUnderscore (lit "_") true s) as [|b r];
      [reflexivity|].
    simpl in Hhead. change (underscoreRun (95 :: b :: r))
      with ((isUnderscore 95 && isUnderscore b) || underscoreRun (b :: r)).
    now rewrite Hhead, Hrun.
  - destruct (IH false) as [Hrun _]. split; [|now simpl].
    destruct (replaceRunsFrom isUnderscore (lit "_") false s) as [|b r];
      [reflexivity|].
    change (underscoreRun (c :: b :: r))
      with ((isUnderscore c && isUnderscore b) || underscoreRun (b :: r)).
    now rewrite Hc, Hrun.
Qed.

Lemma underscoreRun_tail (c : char) (s : jstring) :
  underscoreRun (c :: s) = false -> underscoreRun s = false.
Proof.
  destruct s as [|b s]; [reflexivity|].
  change (underscoreRun (c :: b :: s))
    with ((isUnderscore c && isUnderscore b) || underscoreRun (b :: s)).
  intros H. now apply orb_false_iff in H.
Qed.

Lemma underscoreRun_app_l (a b : jstring) :
  underscoreRun (a ++ b) = false -> underscoreRun a = false.
Proof.
  induction a as [|x a IH]; [reflexivity|].
  destruct a as [|y a]; [reflexivity|].
  change (underscoreRun ((x :: y :: a) ++ b))
    with ((isUnderscore x && isUnderscore y) || underscoreRun ((y :: a) ++ b)).
  change (underscoreRun (x :: y :: a))
    with ((isUnderscore x && isUnderscore y) || underscoreRun (y :: a)).
  intros H. apply orb_false_iff in H as [H1 H2]. now rewrite H1, IH.
Qed.

Lemma underscoreRun_firstn (n : nat) (s : jstring) :
  underscoreRun s = false -> underscoreRun (firstn n s) = false.
Proof.
  intros H. apply (underscoreRun_app_l _ (skipn n s)). now rewrite firstn_skipn.
Qed.

Lemma startsWithUnderscore_firstn (n : nat) (s : jstring) :
  startsWithUnderscore s = false -> startsWithUnderscore (firstn n s) = false.
Proof. destruct n, s; simpl; auto. Qed.

Lemma underscoreRun_app_r (a b : jstring) :
  underscoreRun (a ++ b) = false -> underscoreRun b = false.
Proof.
  induction a as [|x a IH]; [auto|].
  intros H. apply IH. now apply (underscoreRun_tail x).
Qed.

(** The two steps of [trimUnderscores]: what is left once a leading
    underscore is removed, and how the result is cut out of it. *)
Lemma trimUnderscores_cases (s : jstring) :
  exists a s1,
    s = a ++ s1
    /\ (a = [] \/ exists c, a = [c] /\ isUnderscore c = true)
    /\ (a = [] -> startsWithUnderscore s1 = false)
    /\ ((trimUnderscores s = s1 /\ endsWithUnderscore s1 = false)
        \/ exists c, s1 = trimUnderscores s ++ [c] /\ isUnderscore c = true).
Proof.
  assert (cut : forall s1,
            let r := match rev s1 with
                     | c :: r => if isUnderscore c then rev r else s1
                     | [] => []
                     end in
            (r = s1 /\ endsWithUnderscore s1 = false)
            \/ exists c, s1 = r ++ [c] /\ isUnderscore c = true).
  { intros s1. unfold endsWithUnderscore. destruct (rev s1) as [|c r] eqn:E.
    - left. split; [|reflexivity].
      apply (f_equal (@rev char)) in E. now rewrite rev_involutive in E.
    - simpl. destruct (isUnderscore c) eqn:Hc.
      + right. exists c. split; [|assumption].
        apply (f_equal (@rev char)) in E. now rewrite rev_involutive in E.
      + left. split; reflexivity. }
  destruct s as [|c s].
  - exists [], []. split; [reflexivity|]. split; [now left|].
    split; [reflexivity|]. left. split; reflexivity.
  - unfold trimUnderscores. destruct (isUnderscore c) eqn:Hc.
    + exists [c], s. split; [reflexivity|]. split; [right; eauto|].
      split; [discriminate|]. apply cut.
    + exists [], (c :: s). split; [reflexivity|]. split; [now left|].
      split; [now intros _|]. apply cut.
Qed.

Lemma trimUnderscores_Forall (P : char -> Prop) (s : jstring) :
  Forall P s -> Forall P (trimUnderscores s).
Proof.
  intros H. destruct (trimUnderscores_cases s) as (a & s1 & -> & _ & _ & Hcut).
  apply Forall_app in H as [_ H].
  destruct Hcut as [[-> _]|(c & E & _)]; [assumption|].
  rewrite E in H. now apply Forall_app in H.
Qed.

Lemma trimUnderscores_none (s : jstring) :
  Forall (fun c => isUnderscore c = false) s -> trimUnderscores s = s.
Proof.
  intros H. destruct (trimUnderscores_cases s) as (a & s1 & E & Ha & _ & Hcut).
  rewrite E in H. apply Forall_app in H as [H1 H2].
  destruct Ha as [->|(c & -> & Hc)].
  - simpl in E. subst s1.
    destruct Hcut as [[Ht _]|(c & Es & Hc)]; [assumption|].
    rewrite Es in H2. apply Forall_app in H2 as [_ H2].
    inversion H2; congruence.
  - inversion H1; congruence.
Qed.

(** After the runs are collapsed, trimming leaves no underscore at either
    end and creates no run. *)
Lemma trimUnderscores_ends (s : jstring) :
  underscoreRun s = false ->
  underscoreRun (trimUnderscores s) = false
  /\ startsWithUnderscore (trimUnderscores s) = false
  /\ endsWithUnderscore (trimUnderscores s) = false.
Proof.
  intros H. destruct (trimUnderscores_cases s) as (a & s1 & E & Ha & Hhead & Hcut).
  assert (H1 : underscoreRun s1 = false)
    by (rewrite E in H; now apply underscoreRun_app_r in H).
  assert (Hs1 : startsWithUnderscore s1 = false).
  { destruct Ha as [->|(c & -> & Hc)]; [auto|].
    rewrite E in H. destruct s1 as [|b s1]; [reflexivity|].
    change (underscoreRun ([c] ++ b :: s1))
      with ((isUnderscore c && isUnderscore b) || underscoreRun (b :: s1)) in H.
    apply orb_false_iff in H as [H _]. rewrite Hc in H. exact H. }
  destruct Hcut as [[-> Hend]|(c & Es & Hc)]; [auto|].
  rewrite Es in H1, Hs1. split; [now apply underscoreRun_app_l in H1|]. split.
  - destruct (trimUnderscores s); [reflexivity|exact Hs1].
  - unfold endsWithUnderscore.
    destruct (rev (trimUnderscores s)) as [|d r] eqn:Er; [reflexivity|].
    apply (f_equal (@rev char)) in Er. rewrite rev_involutive in Er.
    rewrite Er in H1. simpl in H1. rewrite <- app_assoc in H1.
    apply underscoreRun_app_r in H1. simpl in H1.
    rewrite Hc, andb_true_r, orb_false_r in H1. exact H1.
Qed.

Lemma cleanTitle_chars (t : jstring) :
  Forall (fun c => isInvalidChar c = false /\ isWhiteSpace c = false) (cleanTitle t).
Proof.
  unfold cleanTitle, replaceRuns.
  apply trimUnderscores_Forall.
  apply replaceRunsFrom_Forall; [now split|].
  apply Forall_and.
  - apply replaceRunsFrom_Forall; [reflexivity|].
    rewrite replaceEach_remove. apply Forall_forall. intros c Hc.
    apply filter_In in Hc as [_ Hc]. now apply negb_true_iff in Hc.
  - now apply replaceRunsFrom_clears.
Qed.

Lemma cleanTitle_underscores (t : jstring) :
  underscoreRun (cleanTitle t) = false
  /\ startsWithUnderscore (cleanTitle t) = false
  /\ endsWithUnderscore (cleanTitle t) = false.
Proof.
  unfold cleanTitle, replaceRuns. apply trimUnderscores_ends.
  apply (underscoreRun_collapsed false).
Qed.

Lemma cleanTitle_plain (t : jstring) :
  Forall (fun c => plain c = true) t -> cleanTitle t = t.
Proof.
  intros H. unfold cleanTitle, replaceRuns.
  assert (H3 : Forall (fun c => isInvalidChar c = false) t
               /\ Forall (fun c => isWhiteSpace c = false) t
               /\ Forall (fun c => isUnderscore c = false) t).
  { repeat split; eapply Forall_impl; try exact H; intros c Hc;
      unfold plain in Hc; apply andb_true_iff in Hc as [Hc H2];
      apply andb_true_iff in Hc as [H0 H1];
      now apply negb_true_iff. }
  destruct H3 as (Hi & Hw & Hu).
  rewrite (replaceEach_none _ _ _ Hi), (replaceRunsFrom_none _ _ _ _ Hw),
    (replaceRunsFrom_none _ _ _ _ Hu).
  now apply trimUnderscores_none.
Qed.

Lemma sanitizeFilename_eq (t : jstring) :
  sanitizeFilename t
  = if truthy t
    then or_else (firstn 100 (cleanTitle t)) (lit "untitled")
    else lit "untitled".
Proof. unfold sanitizeFilename, substring. now destruct (truthy t). Qed.

(** The result is the fallback name or the first 100 characters of the
    cleaned title, and is never empty. *)
Lemma sanitizeFilename_cases (t : jstring) :
  sanitizeFilename t = lit "untitled"
  \/ (sanitizeFilename t = firstn 100 (cleanTitle t) /\ sanitizeFilename t <> []).
Proof.
  rewrite sanitizeFilename_eq. destruct (truthy t); [|now left].
  unfold or_else. destruct (firstn 100 (cleanTitle t)) eqn:E; [now left|].
  right. split; [reflexivity|discriminate].
Qed.

(** C4 (as stated in the specification, refuted): the slash of the sample
    title is removed, not turned into an underscore. *)
Lemma sanitizeFilename_sample_not_as_specified :
  sanitizeFilename (lit "Hello: World/Test") <> lit "Hello_World_Test".
Proof. intros H. vm_compute in H. discriminate H. Qed.

(** C4 (amended): the sanitizer maps the sample title to [Hello_WorldTest]
    and the empty title to [untitled]; a 200-character title of plain
    characters is cut to its first 100 characters, and no result is longer
    than 100 characters or empty.  In general the result is the fallback
    name when the title is empty, and otherwise the first 100 characters of
    the cleaned title (the fallback name again when nothing is left); the
    cleaned title and the result hold none of the removed characters and no
    white space, no two adjacent underscores and no leading underscore, and
    the cleaned title has no trailing underscore. *)
Theorem sanitizeFilename_spec (t : jstring) :
  sanitizeFilename (lit "Hello: World/Test") = lit "Hello_WorldTest"
  /\ sanitizeFilename [] = lit "untitled"
  /\ (List.length t = 200%nat -> Forall (fun c => plain c = true) t ->
      sanitizeFilename t = firstn 100 t
      /\ List.length (sanitizeFilename t) = 100%nat)
  /\ (1 <= List.length (sanitizeFilename t) <= 100)%nat
  /\ sanitizeFilename t
     = (if truthy t
        then or_else (substring 0 100 (cleanTitle t)) (lit "untitled")
        else lit "untitled")
  /\ Forall (fun c => isInvalidChar c = false /\ isWhiteSpace c = false)
            (sanitizeFilename t)
  /\ underscoreRun (sanitizeFilename t) = false
  /\ startsWithUnderscore (sanitizeFilename t) = false
  /\ Forall (fun c => isInvalidChar c = false /\ isWhiteSpace c = false)
            (cleanTitle t)
  /\ underscoreRun (cleanTitle t) = false
  /\ startsWithUnderscore (cleanTitle t) = false
  /\ endsWithUnderscore (cleanTitle t) = false.
Proof.
  pose proof (cleanTitle_chars t) as Hchars.
  destruct (cleanTitle_underscores t) as (Hrun & Hstart & Hend).
  split; [reflexivity|]. split; [reflexivity|]. split.
  { intros Hlen Hplain. rewrite sanitizeFilename_eq, (cleanTitle_plain t Hplain).
    destruct t as [|c t]; [discriminate Hlen|]. simpl truthy. cbv iota.
    assert (Hn : List.length (firstn 100 (c :: t)) = 100%nat)
      by (rewrite length_firstn, Hlen; reflexivity).
    unfold or_else. destruct (firstn 100 (c :: t)); [discriminate Hn|].
    now split. }
  split.
  { destruct (sanitizeFilename_cases t) as [->|[E Hne]].
    - simpl. lia.
    - split.
      + destruct (sanitizeFilename t); [congruence|simpl; lia].
      + rewrite E, length_firstn. lia. }
  split; [apply sanitizeFilename_eq|].
  split.
  { destruct (sanitizeFilename_cases t) as [->|[-> _]].
    - repeat constructor.
    - rewrite <- (firstn_skipn 100 (cleanTitle t)) in Hchars.
      now apply Forall_app in Hchars. }
  split.
  { destruct (sanitizeFilename_cases t) as [->|[-> _]]; [reflexivity|].
    now apply underscoreRun_firstn. }
  split.
  { destruct (sanitizeFilename_cases t) as [->|[-> _]]; [reflexivity|].
    now apply startsWithUnderscore_firstn. }
  auto.
Qed.

Lemma sanitizeFilename_spec_witness :
  sanitizeFilename (repeat 97 200) = firstn 100 (repeat 97 200)
  /\ List.length (sanitizeFilename (repeat 97 200)) = 100%nat.
Proof.
  apply (sanitizeFilename_spec (repeat 97 200)).
  - reflexivity.
  - apply Forall_forall. intros c Hc. apply repeat_spec in Hc. now subst c.
Defined.

(** ** Selectors *)

(** Induction over a document tree: a property of every text node and
    comment, passed from the children of an element to the element, holds
    of every node. *)
Lemma Node_induction (P : Node -> Prop) :
  (forall data, P (Text data)) ->
  (forall data, P (Comment data)) ->
  (forall tag attrs kids, Forall P kids -> P (Element tag attrs kids)) ->
  forall n, P n.
Proof.
  intros HT HC HE. fix IH 1. intros [data|data|tag attrs kids].
  - apply HT.
  - apply HC.
  - apply HE. induction kids as [|k kids IHkids]; constructor.
    + apply IH.
    + exact IHkids.
Qed.

(** [selectWith] visits the matching elements of the subtree in document
    order. *)
Lemma selectWith_subtree {B} (sel : Node -> bool) (g : Node -> B) (n : Node) :
  (forall k, sel k = true -> isElement k = true) ->
  forall anc, selectWith sel (fun _ k => g k) anc n = map g (filter sel (subtree n)).
Proof.
  intros Hsel. induction n as [data|data|tag attrs kids IH] using Node_induction;
    intros anc.
  - simpl. destruct (sel (Text data)) eqn:E; [|reflexivity].
    apply Hsel in E. discriminate E.
  - simpl. destruct (sel (Comment data)) eqn:E; [|reflexivity].
    apply Hsel in E. discriminate E.
  - set (node := Element tag attrs kids).
    change (subtree node) with (node :: flat_map subtree kids).
    change (selectWith sel (fun _ k => g k) anc node)
      with ((if sel node then [g node] else [])
            ++ (fix selectAll (l : list Node) : list B :=
                  match l with
                  | [] => []
                  | k :: l' =>
                      selectWith sel (fun _ k => g k) (node :: anc) k ++ selectAll l'
                  end) kids).
    assert (Hkids : (fix selectAll (l : list Node) : list B :=
                       match l with
                       | [] => []
                       | k :: l' =>
                           selectWith sel (fun _ k => g k) (node :: anc) k
                           ++ selectAll l'
                       end) kids
                    = map g (filter sel (flat_map subtree kids))).
    { clearbody node. induction IH as [|k kids Hk _ IHkids]; [reflexivity|].
      simpl flat_map.
      rewrite filter_app, map_app, <- IHkids, <- (Hk (node :: anc)). reflexivity. }
    rewrite Hkids. simpl filter. now destruct (sel node).
Qed.

(** [querySelectorAllWith] visits the descendants that match the selector,
    in document order, as [querySelectorAll] lists them. *)
Lemma querySelectorAllWith_descendants {B} (sel : Node -> bool) (g : Node -> B)
    (anc : list Node) (n : Node) :
  (forall k, sel k = true -> isElement k = true) ->
  querySelectorAllWith sel (fun _ k => g k) anc n
  = map g (filter sel (descendants n)).
Proof.
  intros Hsel. unfold querySelectorAllWith, descendants.
  destruct n as [data|data|tag attrs kids]; try reflexivity.
  simpl children. generalize (Element tag attrs kids :: anc) as anc'.
  intros anc'. induction kids as [|k kids IH]; [reflexivity|].
  simpl flat_map. rewrite filter_app, map_app, <- IH.
  now rewrite (selectWith_subtree sel g k Hsel).
Qed.

(** ** The Markdown transducer *)

Section TransducerFacts.

Variable toLowerCase : jstring -> jstring.

Local Abbreviation processNode := (MarkdownConverter.processNode toLowerCase).
Local Abbreviation processTable := (MarkdownConverter.processTable toLowerCase).
Local Abbreviation htmlToMarkdown := (MarkdownConverter.htmlToMarkdown toLowerCase).

(** The converted children of a text-only element are its text content. *)
Lemma children_text (anc : list Node) (kids : list Node) :
  Forall (fun k => isText k = true) kids ->
  List.concat (map (processNode anc) kids)
  = flat_map (fun k => match k with Comment _ => [] | _ => textContent k end) kids.
Proof.
  induction 1 as [|k kids Hk _ IH]; [reflexivity|].
  simpl. rewrite IH. destruct k; try discriminate Hk. reflexivity.
Qed.

(** C5: a code element whose parent is a code-block container ([pre]) is
    converted to its inner string, the converted children, without
    backticks; a code element with any other parent, or without parent,
    is converted to the inner string between single backticks.  For a code
    element holding only text the inner string is its text content. *)
Theorem code_backticks (anc : list Node) (attrs : list (jstring * jstring))
    (kids : list Node) :
  let node := Element (lit "code") attrs kids in
  let inner := List.concat (map (processNode (node :: anc)) kids) in
  (forall parent rest, anc = parent :: rest -> isTag "pre" parent = true ->
     processNode anc node = inner)
  /\ (forall parent rest, anc = parent :: rest -> isTag "pre" parent = false ->
        processNode anc node = lit "`" +++ inner +++ lit "`")
  /\ (anc = [] -> processNode anc node = lit "`" +++ inner +++ lit "`")
  /\ (Forall (fun k => isText k = true) kids -> inner = textContent node).
Proof.
  intros node inner. repeat split.
  - intros parent rest -> Hpre.
    change (processNode (parent :: rest) node)
      with (if isTag "pre" parent then inner else lit "`" +++ inner +++ lit "`").
    now rewrite Hpre.
  - intros parent rest -> Hpre.
    change (processNode (parent :: rest) node)
      with (if isTag "pre" parent then inner else lit "`" +++ inner +++ lit "`").
    now rewrite Hpre.
  - intros ->. reflexivity.
  - intros Htext. subst inner. now rewrite children_text.
Qed.

Lemma tableLines_rest (n : nat) (rows : list (list jstring)) :
  tableLines (S n) rows = map tableRow rows.
Proof.
  revert n; induction rows as [|r rows IH]; intros n; [reflexivity|].
  simpl. now rewrite IH.
Qed.

Lemma tableLines_first (first : list jstring) (rest : list (list jstring)) :
  tableLines 0 (first :: rest)
  = tableRow first :: tableRow (repeat (lit "---") (List.length first))
      :: map tableRow rest.
Proof.
  simpl. rewrite tableLines_rest. do 2 f_equal. f_equal.
  induction first as [|c first IH]; [reflexivity|]. simpl. now rewrite IH.
Qed.


End TransducerFacts.

Lemma code_backticks_witness :
  MarkdownConverter.processNode asciiLower [samplePre] sampleCode = lit "x = 1"
  /\ MarkdownConverter.processNode asciiLower [sampleParagraph] sampleCode = lit "`x = 1`"
  /\ MarkdownConverter.processNode asciiLower [] sampleCode = lit "`x = 1`"
  /\ lit "x = 1" = textContent sampleCode.
Proof.
  pose proof (code_backticks asciiLower [samplePre] [] [Text (lit "x = 1")])
    as (Hpre & _ & _ & Htext).
  pose proof (code_backticks asciiLower [sampleParagraph] [] [Text (lit "x = 1")])
    as (_ & Hother & _ & _).
  pose proof (code_backticks asciiLower [] [] [Text (lit "x = 1")])
    as (_ & _ & Hroot & _).
  split; [exact (Hpre samplePre [] eq_refl eq_refl)|].
  split; [exact (Hother sampleParagraph [] eq_refl eq_refl)|].
  split; [exact (Hroot eq_refl)|].
  apply Htext. repeat constructor.
Defined.

(** A completion that returns is the value of the converter. *)
Lemma htmlToMarkdownCompletion_returned (toLowerCase : jstring -> jstring)
    (anc : list Node) (element : option Node) (markdown : jstring) :
  htmlToMarkdownCompletion toLowerCase anc element = Returned markdown ->
  markdown = MarkdownConverter.htmlToMarkdown toLowerCase anc element.
Proof.
  unfold htmlToMarkdownCompletion, MarkdownConverter.htmlToMarkdown.
  destruct element as [e|]; [|now intros [= <-]].
  destruct (cloneNode anc e) as [cloneAnc clone].
  destruct (processNodeThrows cloneAnc clone); [discriminate|now intros [= <-]].
Qed.

(** C9 (the code at the failing input): the conversion of a fragment in
    which a code block stands inside an [svg] element whose class holds
    [language-] does not return: [detectLanguage] finds no language class
    on a code element and no language indicator, takes the [svg] element as
    the closest element with such a class, and calls [match] on its
    [className], which is not a string; the [TypeError] leaves
    [htmlToMarkdown].  The same fragment with a [div] in the place of the
    [svg] element is converted to a code block of the language [js]. *)
Theorem conversion_throws_under_svg :
  detectLanguageThrows [svgForeignObject; svgElement; svgFragment] svgCodeBlock = true
  /\ processNodeThrows [] svgFragment = true
  /\ htmlToMarkdownCompletion asciiLower [] (Some svgFragment) = TypeError
  /\ htmlToMarkdownCompletion asciiLower [] (Some (languageBox "div"))
     = Returned (text ["```js"; "x"; "```"])
  /\ htmlToMarkdownCompletion asciiLower [] None = Returned [].
Proof. vm_compute. repeat split. Qed.

(** ** The batch export *)

Import Background Content.
Local Open Scope nat_scope.

Lemma exportItem_counted (i : nat) (e : ItemEnv) (link : ConversationLink)
    (st : BatchState) :
  total (results (exportItem i e link st)) = total (results st)
  /\ counted (results st) (results (exportItem i e link st)).
Proof.
  unfold exportItem.
  destruct (JSSet.has (exportedSet st) (link_id link));
    [split; [reflexivity|now apply counted_skipped]|].
  destruct (linkLookup e) as [| |message]; simpl;
    [|split; [reflexivity|now eapply counted_failed]..].
  destruct (loaded e); simpl;
    [|split; [reflexivity|now eapply counted_failed]].
  destruct (extracted e) as [conversation|];
    [|split; [reflexivity|now eapply counted_failed]].
  destruct (reply e) as [message|outcome];
    [split; [reflexivity|now eapply counted_failed]|].
  destruct (downloadFile outcome _ _) as [w' response].
  split; [reflexivity|now apply counted_exported].
Qed.

Lemma counted_tally (r r' : Results) :
  counted r r' ->
  tally r' = S (tally r)
  /\ (List.length (errors r) = failed r -> List.length (errors r') = failed r').
Proof.
  unfold tally.
  intros [He Hs Hf Hd|He Hs Hf Hd|d He Hs Hf Hd]; rewrite He, Hs, Hf, Hd;
    split; try lia.
  rewrite length_app. simpl. lia.
Qed.

Lemma exportLoop_tally (env : nat -> ItemEnv) (links : list ConversationLink) :
  forall i st,
    let st' := exportLoop env i links st in
    total (results st') = total (results st)
    /\ tally (results st') = tally (results st) + List.length links
    /\ (List.length (errors (results st)) = failed (results st) ->
        List.length (errors (results st')) = failed (results st')).
Proof.
  induction links as [|link rest IH]; intros i st; simpl.
  - repeat split; auto.
  - destruct (exportItem_counted i (env i) link st) as [Ht Hc].
    apply counted_tally in Hc as [Hsum Herr].
    destruct (IH (S i) (exportItem i (env i) link st)) as (IHt & IHs & IHe).
    repeat split; [congruence|lia|auto].
Qed.

Lemma exportLoop_app (env : nat -> ItemEnv) (a b : list ConversationLink) :
  forall i st,
    exportLoop env i (a ++ b) st
    = exportLoop env (i + List.length a) b (exportLoop env i a st).
Proof.
  induction a as [|link a IH]; intros i st; simpl.
  - now rewrite Nat.add_0_r.
  - rewrite IH. f_equal. lia.
Qed.

(** The state reached at a candidate is the state at the one before it after
    one turn of the loop body, and the run ends in the state reached after
    the last candidate. *)
Lemma stateAt_step (env : nat -> ItemEnv) (links : list ConversationLink)
    (w : World) (i : nat) (link : ConversationLink) :
  nth_error links i = Some link ->
  stateAt env links w (S i) = exportItem i (env i) link (stateAt env links w i).
Proof.
  intros Hnth. unfold stateAt.
  assert (Hlen : i < List.length links)
    by (apply nth_error_Some; congruence).
  assert (Hfirst : firstn (S i) links = firstn i links ++ [link]).
  { clear Hlen. revert i Hnth. induction links as [|x links IH]; intros [|i] Hnth;
      try discriminate Hnth.
    - injection Hnth as ->. reflexivity.
    - simpl in *. now rewrite (IH i Hnth). }
  rewrite Hfirst, exportLoop_app. simpl.
  rewrite length_firstn, Nat.min_l by lia. reflexivity.
Qed.

Lemma stateAt_end (env : nat -> ItemEnv) (links : list ConversationLink) (w : World) :
  exportLoop env 0 links (initialState w links)
  = stateAt env links w (List.length links).
Proof. unfold stateAt. now rewrite firstn_all. Qed.

(** *** Download Sink calls *)

Lemma sinkCalls_logMessage (j : nat) (m : SinkMessage) (w : World) :
  sinkCalls j (logMessage m w) = sinkCalls j w + (if fromBatch j m then 1 else 0).
Proof.
  unfold sinkCalls. simpl. rewrite filter_app, length_app. simpl.
  now destruct (fromBatch j m).
Qed.

Lemma sinkCalls_downloadFile (j : nat) (outcome : DownloadOutcome)
    (conversationId : option jstring) (w : World) :
  sinkCalls j (fst (downloadFile outcome conversationId w)) = sinkCalls j w.
Proof.
  unfold downloadFile. destruct outcome; [|reflexivity].
  now destruct (present conversationId).
Qed.

Lemma sinkCalls_markAsExported (j : nat) (conversationId : option jstring) (w : World) :
  sinkCalls j (markAsExported conversationId w) = sinkCalls j w.
Proof. unfold markAsExported. now destruct (negb (present conversationId)). Qed.

(** An export of the current conversation is not a call of the batch run. *)
Lemma sinkCalls_exportCurrentConversation (j : nat) (e : SingleExport) (w : World) :
  sinkCalls j (fst (exportCurrentConversation e w)) = sinkCalls j w.
Proof.
  unfold exportCurrentConversation.
  destruct (current e) as [conversation|]; [|reflexivity].
  set (m := {| sender := FromSingle |}).
  destruct (singleReply e) as [message|outcome].
  - simpl. destruct (present (id conversation)); simpl;
      rewrite ?sinkCalls_markAsExported, sinkCalls_logMessage; simpl; lia.
  - pose proof (sinkCalls_downloadFile j outcome (id conversation) (logMessage m w)) as Hd.
    destruct (downloadFile outcome (id conversation) (logMessage m w)) as [w' response].
    simpl in *.
    destruct (success response && present (id conversation));
      rewrite ?sinkCalls_markAsExported, Hd, sinkCalls_logMessage; simpl; lia.
Qed.

Lemma sinkCalls_runConcurrent (j : nat) (es : list SingleExport) (w : World) :
  sinkCalls j (runConcurrent es w) = sinkCalls j w.
Proof.
  unfold runConcurrent. revert w. induction es as [|e es IH]; intros w;
    [reflexivity|].
  simpl. now rewrite IH, sinkCalls_exportCurrentConversation.
Qed.

(** One turn of the loop makes at most one Download Sink call, for its own
    candidate. *)
Lemma sinkCalls_exportItem (j i : nat) (e : ItemEnv) (link : ConversationLink)
    (st : BatchState) :
  sinkCalls j (world st) <= sinkCalls j (world (exportItem i e link st))
  /\ sinkCalls j (world (exportItem i e link st))
     <= sinkCalls j (world st) + (if Nat.eqb j i then 1 else 0).
Proof.
  assert (Hclick : forall w href, sinkCalls j (logClick href w) = sinkCalls j w)
    by reflexivity.
  unfold exportItem.
  destruct (JSSet.has (exportedSet st) (link_id link)); [simpl; lia|].
  destruct (linkLookup e) as [| |message]; simpl; [|lia..].
  destruct (loaded e); simpl;
    [|rewrite sinkCalls_runConcurrent, Hclick; lia].
  destruct (extracted e) as [conversation|];
    [|simpl; rewrite sinkCalls_runConcurrent, Hclick; lia].
  set (m := {| sender := FromBatch i |}).
  assert (Hm : sinkCalls j (logMessage m (runConcurrent (concurrent e)
                                             (logClick (link_href link) (world st))))
               = sinkCalls j (world st) + (if Nat.eqb j i then 1 else 0)).
  { rewrite sinkCalls_logMessage, sinkCalls_runConcurrent, Hclick. reflexivity. }
  destruct (reply e) as [message|outcome]; [simpl; rewrite Hm; lia|].
  match goal with
  | |- context [downloadFile ?o ?c ?w] =>
      pose proof (sinkCalls_downloadFile j o c w) as Hd;
      destruct (downloadFile o c w) as [w' response]
  end.
  simpl in *. rewrite sinkCalls_markAsExported, Hd, Hm. lia.
Qed.

(** The loop makes at most one Download Sink call for each of its
    candidates and none for another index. *)
Lemma sinkCalls_exportLoop (env : nat -> ItemEnv) (j : nat)
    (links : list ConversationLink) :
  forall i st,
    sinkCalls j (world st) <= sinkCalls j (world (exportLoop env i links st))
    /\ sinkCalls j (world (exportLoop env i links st))
       <= sinkCalls j (world st)
          + (if Nat.leb i j && Nat.ltb j (i + List.length links) then 1 else 0).
Proof.
  induction links as [|link rest IH]; intros i st; simpl.
  - lia.
  - destruct (IH (S i) (exportItem i (env i) link st)) as [IHlo IHhi].
    destruct (sinkCalls_exportItem j i (env i) link st) as [Hlo Hhi].
    split; [lia|].
    destruct (Nat.eqb_spec j i) as [->|Hne].
    + replace (Nat.leb (S i) i) with false in IHhi
        by (symmetry; apply Nat.leb_gt; lia).
      replace (Nat.leb i i && Nat.ltb i (i + S (List.length rest))) with true
        by (symmetry; apply andb_true_iff; split;
            [apply Nat.leb_le|apply Nat.ltb_lt]; lia).
      simpl in IHhi. lia.
    + replace (Nat.leb i j && Nat.ltb j (i + S (List.length rest)))
        with (Nat.leb (S i) j && Nat.ltb j (S i + List.length rest)).
      * lia.
      * replace (i + S (List.length rest)) with (S i + List.length rest) by lia.
        f_equal. destruct (Nat.leb_spec (S i) j), (Nat.leb_spec i j);
          try reflexivity; lia.
Qed.

Lemma exportLoop_split (env : nat -> ItemEnv) (links : list ConversationLink)
    (w : World) (i : nat) (link : ConversationLink) :
  nth_error links i = Some link ->
  exportLoop env 0 links (initialState w links)
  = exportLoop env (S i) (skipn (S i) links) (stateAt env links w (S i)).
Proof.
  intros Hnth.
  assert (Hlen : i < List.length links) by (apply nth_error_Some; congruence).
  rewrite <- (firstn_skipn (S i) links) at 1.
  rewrite exportLoop_app, length_firstn, Nat.min_l by lia. reflexivity.
Qed.

(** C7 (the code at the failing input): in a run over three candidates
    the browser rejects the download of the first, the link of the second
    is not found and the lookup of the third throws.  All three fail, and
    the run goes through all of them, but it ends with [failed] at 2 and two
    diagnostics: the candidate whose download the Download Sink rejected is
    counted as exported and leaves no diagnostic, while each of the other
    two failures increments [failed] and appends its diagnostic. *)
Theorem sink_failure_leaves_no_diagnostic :
  sinkRejects (failingEnv 0) = true
  /\ snd (exportAllConversations failingEnv [linkA; linkB; linkC] emptyWorld)
     = BatchSuccess
         {| total := 3; exported := 1; skipped := 0; failed := 2;
            errors := [lit "Link not found: Second";
                       lit "Error: Third - not a valid selector"] |}
  /\ results (stateAt failingEnv [linkA; linkB; linkC] emptyWorld 1)
     = {| total := 3; exported := 1; skipped := 0; failed := 0; errors := [] |}
  /\ sinkCalls 0 (fst (exportAllConversations failingEnv [linkA; linkB; linkC] emptyWorld))
     = 1.
Proof. vm_compute. repeat split. Qed.




(** C3 (the code at the failing input): when the browser rejects the
    download, the service worker answers with [success: false]; the batch
    run nevertheless counts the candidate as exported, records no
    diagnostic, and writes its id to the stored array.  The single
    conversation export leaves the store alone on the same answer. *)
Theorem rejected_download_marked_exported :
  (let '(w', r) := exportAllConversations rejectingEnv [linkA] emptyWorld in
   r = BatchSuccess {| total := 1; exported := 1; skipped := 0; failed := 0;
                       errors := [] |}
   /\ stored w' = Some [link_id linkA]
   /\ sinkCalls 0 w' = 1)
  /\ snd (downloadFile (Rejected (lit "Invalid filename")) (Some (link_id linkA))
            emptyWorld)
     = {| success := false; downloadId := None;
          error := Some (lit "Invalid filename") |}
  /\ stored (fst (exportCurrentConversation
                    {| current := Some (conversationOf linkA);
                       singleReply := Delivered (Rejected (lit "Invalid filename")) |}
                    emptyWorld))
     = None.
Proof. vm_compute. repeat split. Qed.

(** ** The sidebar loader *)

(** The loop, unfolded once. *)
Lemma scrollLoop_unfold (page : Sidebar) (fuel : nat) (st : LoaderState) :
  scrollLoop (S fuel) page st
  = if Nat.ltb (attempts st) maxScrollAttempts then
      let k := S (iterations st) in
      if Nat.eqb (linkCount page k) (currentCount st) then
        if Nat.leb 3 (S (noChangeCount st))
        then Some {| lastCount := currentCount st;
                     currentCount := linkCount page k;
                     noChangeCount := S (noChangeCount st);
                     attempts := attempts st;
                     scrollTop := scrollHeight page k; iterations := k |}
        else scrollLoop fuel page
               {| lastCount := currentCount st;
                  currentCount := linkCount page k;
                  noChangeCount := S (noChangeCount st);
                  attempts := S (attempts st);
                  scrollTop := scrollHeight page k; iterations := k |}
      else scrollLoop fuel page
             {| lastCount := currentCount st;
                currentCount := linkCount page k;
                noChangeCount := 0;
                attempts := S (attempts st);
                scrollTop := scrollHeight page k; iterations := k |}
    else Some st.
Proof. reflexivity. Qed.

Lemma scrollLoop_no_fuel (page : Sidebar) (st : LoaderState) :
  scrollLoop 0 page st
  = if Nat.ltb (attempts st) maxScrollAttempts then None else Some st.
Proof. reflexivity. Qed.

(** More fuel does not change the outcome of the loop. *)
Lemma scrollLoop_more_fuel (page : Sidebar) (fuel : nat) :
  forall st r, scrollLoop fuel page st = Some r ->
               scrollLoop (S fuel) page st = Some r.
Proof.
  induction fuel as [|fuel IH]; intros st r H.
  - rewrite scrollLoop_unfold. rewrite scrollLoop_no_fuel in H.
    destruct (Nat.ltb (attempts st) maxScrollAttempts);
      [discriminate H|exact H].
  - rewrite scrollLoop_unfold. rewrite scrollLoop_unfold in H.
    destruct (Nat.ltb (attempts st) maxScrollAttempts); [|exact H].
    cbv zeta in *. destruct (Nat.eqb _ _).
    + destruct (Nat.leb 3 (S (noChangeCount st))); [exact H|now apply IH].
    + now apply IH.
Qed.

Lemma scrollLoop_fuel_le (page : Sidebar) (fuel fuel' : nat) (st r : LoaderState) :
  fuel <= fuel' -> scrollLoop fuel page st = Some r ->
  scrollLoop fuel' page st = Some r.
Proof.
  induction 1 as [|fuel' _ IH]; [auto|].
  intros H. now apply scrollLoop_more_fuel, IH.
Qed.

(** The loop, started in a state that the loop itself can reach, ends after
    at most [maxScrollAttempts] iterations in all; it has passed only
    iterations that did not complete a streak of three, and it ends on the
    one that completes such a streak or on the last one allowed. *)
Lemma scrollLoop_spec (page : Sidebar) (fuel : nat) :
  forall st,
    attempts st = iterations st ->
    maxScrollAttempts <= attempts st + fuel ->
    attempts st <= maxScrollAttempts ->
    noChangeCount st = streak page (iterations st) ->
    noChangeCount st < 3 ->
    currentCount st = linkCount page (iterations st) ->
    exists r,
      scrollLoop fuel page st = Some r
      /\ iterations st <= iterations r <= maxScrollAttempts
      /\ currentCount r = linkCount page (iterations r)
      /\ (forall n, iterations st < n < iterations r -> streak page n < 3)
      /\ ((iterations st < iterations r /\ 3 <= streak page (iterations r))
          \/ iterations r = maxScrollAttempts).
Proof.
  induction fuel as [|fuel IH]; intros st Hatt Hfuel Hmax Hstreak Hlt Hcur.
  - exists st. rewrite scrollLoop_no_fuel.
    replace (Nat.ltb (attempts st) maxScrollAttempts) with false
      by (symmetry; apply Nat.ltb_ge; lia).
    repeat split; try lia; intros; lia.
  - rewrite scrollLoop_unfold.
    destruct (Nat.ltb_spec (attempts st) maxScrollAttempts) as [Hin|Hout].
    2:{ exists st. repeat split; try lia; intros; lia. }
    cbv zeta. rewrite Hcur.
    assert (Hnext : streak page (S (iterations st))
                    = if Nat.eqb (linkCount page (S (iterations st)))
                                 (linkCount page (iterations st))
                      then S (streak page (iterations st)) else 0)
      by reflexivity.
    destruct (Nat.eqb (linkCount page (S (iterations st)))
                      (linkCount page (iterations st))) eqn:Heq.
    + destruct (Nat.leb_spec 3 (S (noChangeCount st))) as [Hbreak|Hgo].
      * eexists. split; [reflexivity|]. cbn [iterations currentCount].
        split; [lia|]. split; [reflexivity|]. split; [intros n Hn; lia|].
        left. split; [lia|]. rewrite Hnext. lia.
      * destruct (IH {| lastCount := linkCount page (iterations st);
                        currentCount := linkCount page (S (iterations st));
                        noChangeCount := S (noChangeCount st);
                        attempts := S (attempts st);
                        scrollTop := scrollHeight page (S (iterations st));
                        iterations := S (iterations st) |})
          as (r & Hr & Hit & Hc & Hpass & Hend);
          cbn [iterations currentCount attempts noChangeCount] in *;
          try lia; try reflexivity.
        exists r. split; [exact Hr|]. split; [lia|]. split; [exact Hc|]. split.
        -- intros n Hn. destruct (Nat.eq_dec n (S (iterations st))) as [->|Hne].
           ++ rewrite Hnext. lia.
           ++ apply Hpass. lia.
        -- destruct Hend as [[H1 H2]|H3]; [left; split; [lia|exact H2]|now right].
    + destruct (IH {| lastCount := linkCount page (iterations st);
                      currentCount := linkCount page (S (iterations st));
                      noChangeCount := 0;
                      attempts := S (attempts st);
                      scrollTop := scrollHeight page (S (iterations st));
                      iterations := S (iterations st) |})
        as (r & Hr & Hit & Hc & Hpass & Hend);
        cbn [iterations currentCount attempts noChangeCount] in *;
        try lia; try reflexivity.
      exists r. split; [exact Hr|]. split; [lia|]. split; [exact Hc|]. split.
      * intros n Hn. destruct (Nat.eq_dec n (S (iterations st))) as [->|Hne].
        -- rewrite Hnext. lia.
        -- apply Hpass. lia.
      * destruct Hend as [[H1 H2]|H3]; [left; split; [lia|exact H2]|now right].
Qed.

(** A streak of three is three iterations in a row with an unchanged count. *)
Lemma streak_three (page : Sidebar) (n : nat) :
  3 <= streak page n <->
  exists m, n = S (S (S m))
            /\ linkCount page (S m) = linkCount page m
            /\ linkCount page (S (S m)) = linkCount page (S m)
            /\ linkCount page (S (S (S m))) = linkCount page (S (S m)).
Proof.
  split.
  - intros H. destruct n as [|[|[|m]]]; simpl in H;
      repeat match type of H with
             | context [Nat.eqb ?a ?b] => destruct (Nat.eqb_spec a b)
             end; try lia.
    exists m. auto.
  - intros (m & -> & H1 & H2 & H3). simpl.
    apply Nat.eqb_eq in H1, H2, H3. rewrite H1, H2, H3. lia.
Qed.

(** C8: whatever the page shows, and for any amount of fuel that is at
    least [maxScrollAttempts], the loader returns, after at most 50 scroll
    iterations; it makes exactly 50 when the number of links grows at every
    scroll.  It stops no later than the third of three consecutive
    iterations that leave the number of links unchanged, and it stops before
    the 50th iteration only on such an iteration; for a sidebar whose number
    of links never decreases, an unchanged number is the same as a number
    that did not grow.  When the page has a sidebar the scroll position is
    back at the top (0) when the loader returns and the count returned is the
    last one observed; when it has none the loader returns 0 without
    scrolling. *)
Theorem loader_bounded (page : Sidebar) (fuel : nat) :
  maxScrollAttempts <= fuel ->
  exists r,
    loadAllSidebarConversations fuel page = Some r
    /\ scrolled r <= 50
    /\ match nav page with
       | Some _ => position r = Some 0 /\ returned r = linkCount page (scrolled r)
       | None => r = {| returned := 0; scrolled := 0; position := None |}
       end
    /\ (nav page <> None ->
        (forall k, linkCount page k < linkCount page (S k)) ->
        scrolled r = 50)
    /\ (forall m,
          linkCount page (S m) = linkCount page m ->
          linkCount page (S (S m)) = linkCount page (S m) ->
          linkCount page (S (S (S m))) = linkCount page (S (S m)) ->
          scrolled r <= S (S (S m)))
    /\ (nav page <> None -> scrolled r < 50 ->
        exists m,
          scrolled r = S (S (S m))
          /\ linkCount page (S m) = linkCount page m
          /\ linkCount page (S (S m)) = linkCount page (S m)
          /\ linkCount page (S (S (S m))) = linkCount page (S (S m)))
    /\ ((forall k, linkCount page k <= linkCount page (S k)) ->
        forall m,
          linkCount page (S m) <= linkCount page m ->
          linkCount page (S (S m)) <= linkCount page (S m) ->
          linkCount page (S (S (S m))) <= linkCount page (S (S m)) ->
          scrolled r <= S (S (S m))).
Proof.
  intros Hfuel. unfold loadAllSidebarConversations.
  destruct (nav page) as [top|].
  2:{ eexists. split; [reflexivity|]. cbn [scrolled].
      split; [lia|]. split; [reflexivity|].
      split; [congruence|]. split; [intros; lia|].
      split; [congruence|]. intros; lia. }
  set (st0 := {| lastCount := 0; currentCount := linkCount page 0;
                 noChangeCount := 0; attempts := 0; scrollTop := top;
                 iterations := 0 |}).
  destruct (scrollLoop_spec page maxScrollAttempts st0)
    as (r0 & Hr0 & Hit & Hc & Hpass & Hend);
    try reflexivity; cbn [attempts noChangeCount iterations st0]; try lia.
  cbn [iterations st0] in *.
  rewrite (scrollLoop_fuel_le page _ fuel st0 r0 Hfuel Hr0).
  eexists. split; [reflexivity|]. cbn [scrolled position returned].
  change maxScrollAttempts with 50 in *.
  assert (Hstop : forall m,
            linkCount page (S m) = linkCount page m ->
            linkCount page (S (S m)) = linkCount page (S m) ->
            linkCount page (S (S (S m))) = linkCount page (S (S m)) ->
            iterations r0 <= S (S (S m))).
  { intros m H1 H2 H3.
    destruct (Nat.le_gt_cases (iterations r0) (S (S (S m)))) as [Hle|Hgt];
      [exact Hle|].
    assert (H : 3 <= streak page (S (S (S m)))) by (apply streak_three; eauto).
    specialize (Hpass (S (S (S m)))). lia. }
  split; [lia|]. split; [now split|]. split.
  { intros _ Hgrow. destruct Hend as [[_ Hthree]|H50]; [|exact H50].
    apply streak_three in Hthree as (m & _ & H1 & _).
    specialize (Hgrow m). lia. }
  split; [exact Hstop|]. split.
  { intros _ Hearly. destruct Hend as [[_ Hthree]|H50]; [|lia].
    apply streak_three in Hthree as (m & E & H1 & H2 & H3). exists m. auto. }
  intros Hmono m H1 H2 H3.
  apply Hstop.
  - pose proof (Hmono m). lia.
  - pose proof (Hmono (S m)). lia.
  - pose proof (Hmono (S (S m))). lia.
Qed.

Lemma loader_bounded_witness :
  (exists r, loadAllSidebarConversations 1000 growingSidebar = Some r
             /\ scrolled r = 50 /\ position r = Some 0)
  /\ (exists r, loadAllSidebarConversations 1000 settledSidebar = Some r
                /\ scrolled r <= 5 /\ position r = Some 0).
Proof.
  assert (Hfuel : maxScrollAttempts <= 1000) by (unfold maxScrollAttempts; lia).
  split.
  - destruct (loader_bounded growingSidebar 1000 Hfuel)
      as (r & Hr & _ & [Hpos _] & Hcap & _).
    exists r. split; [exact Hr|]. split; [|exact Hpos].
    apply Hcap; [discriminate|]. intros k. simpl. lia.
  - destruct (loader_bounded settledSidebar 1000 Hfuel)
      as (r & Hr & _ & [Hpos _] & _ & _ & _ & Hstop).
    exists r. split; [exact Hr|]. split; [|exact Hpos].
    apply (Hstop ltac:(intros k; simpl; lia) 2); simpl; lia.
Defined.

(** * Further properties of the code *)

Import Vocabulary Inputs.

(** ** Sets of strings *)

Lemma has_In (s : JSSet.t) (x : jstring) : JSSet.has s x = true <-> In x s.
Proof.
  unfold JSSet.has. rewrite existsb_exists. split.
  - intros (y & Hy & E). apply eqb_eq in E. now subst y.
  - intros H. exists x. split; [exact H|now apply eqb_eq].
Qed.

Lemma has_add (s : JSSet.t) (x y : jstring) :
  JSSet.has (JSSet.add s x) y = JSSet.has s y || JS.eqb y x.
Proof.
  unfold JSSet.add. destruct (JSSet.has s x) eqn:Hx.
  - destruct (JS.eqb y x) eqn:E; [|now rewrite orb_false_r].
    apply eqb_eq in E. subst y. now rewrite Hx.
  - unfold JSSet.has. rewrite existsb_app. simpl. now rewrite orb_false_r.
Qed.

Lemma add_member (s : JSSet.t) (x : jstring) :
  JSSet.has s x = true -> JSSet.add s x = s.
Proof. intros H. unfold JSSet.add. now rewrite H. Qed.

Lemma add_NoDup (s : JSSet.t) (x : jstring) : NoDup s -> NoDup (JSSet.add s x).
Proof.
  intros H. unfold JSSet.add. destruct (JSSet.has s x) eqn:Hx; [exact H|].
  apply NoDup_app; [exact H|repeat constructor; intros []|].
  intros a Ha [<-|[]]. apply has_In in Ha. congruence.
Qed.

Lemma fold_add_NoDup (a : list jstring) :
  forall acc, NoDup acc -> NoDup (fold_left JSSet.add a acc).
Proof.
  induction a as [|x a IH]; intros acc H; [exact H|].
  simpl. apply IH. now apply add_NoDup.
Qed.

Lemma fold_add_has (a : list jstring) (y : jstring) :
  forall acc, JSSet.has (fold_left JSSet.add a acc) y
              = JSSet.has acc y || existsb (JS.eqb y) a.
Proof.
  induction a as [|x a IH]; intros acc; simpl; [now rewrite orb_false_r|].
  rewrite IH, has_add. now rewrite <- orb_assoc.
Qed.

Lemma ofArray_has (a : list jstring) (y : jstring) :
  JSSet.has (JSSet.ofArray a) y = existsb (JS.eqb y) a.
Proof. unfold JSSet.ofArray. now rewrite fold_add_has. Qed.

(** A set made from the array of a set is that set. *)
Lemma fold_add_fresh (a : list jstring) :
  forall acc, NoDup (acc ++ a) -> fold_left JSSet.add a acc = acc ++ a.
Proof.
  induction a as [|x a IH]; intros acc H; simpl; [now rewrite app_nil_r|].
  assert (Hx : JSSet.has acc x = false).
  { destruct (JSSet.has acc x) eqn:E; [|reflexivity].
    apply has_In in E. apply NoDup_remove_2 in H.
    exfalso. apply H. apply in_or_app. now left. }
  unfold JSSet.add at 2. rewrite Hx.
  rewrite IH; rewrite <- app_assoc; [reflexivity|exact H].
Qed.

Lemma ofArray_toArray (s : JSSet.t) : NoDup s -> JSSet.ofArray (JSSet.toArray s) = s.
Proof. intros H. unfold JSSet.ofArray, JSSet.toArray. now rewrite fold_add_fresh. Qed.

(** ** The tracking store *)

Lemma getExportedConversations_NoDup (w : World) :
  NoDup (getExportedConversations w).
Proof. unfold getExportedConversations, JSSet.ofArray. apply fold_add_NoDup. constructor. Qed.

Lemma getExportedConversations_setStored (s : JSSet.t) (w : World) :
  NoDup s -> getExportedConversations (setStored (Some (JSSet.toArray s)) w) = s.
Proof. intros H. unfold getExportedConversations. simpl. now apply ofArray_toArray. Qed.

Lemma present_Some (s : jstring) : s <> [] -> present (Some s) = true.
Proof. destruct s; [congruence|reflexivity]. Qed.

Lemma getExportedConversations_markAsExported (w : World) (conversationId : jstring) :
  conversationId <> [] ->
  getExportedConversations (markAsExported (Some conversationId) w)
  = JSSet.add (getExportedConversations w) conversationId.
Proof.
  intros Hid. unfold markAsExported. rewrite (present_Some _ Hid). simpl negb. cbv iota.
  apply getExportedConversations_setStored, add_NoDup, getExportedConversations_NoDup.
Qed.

(** The set read from the storage has no duplicates, holds exactly the
    elements of the stored array, and is empty when nothing is stored. *)
Theorem getExportedConversations_set (w : World) (x : jstring) :
  NoDup (getExportedConversations w)
  /\ (JSSet.has (getExportedConversations w) x = true
      <-> In x (match stored w with Some a => a | None => [] end))
  /\ (stored w = None -> getExportedConversations w = []).
Proof.
  split; [apply getExportedConversations_NoDup|]. split.
  - unfold getExportedConversations. rewrite ofArray_has, existsb_exists. split.
    + intros (y & Hy & E). apply eqb_eq in E. now subst y.
    + intros H. exists x. split; [exact H|now apply eqb_eq].
  - intros H. unfold getExportedConversations. now rewrite H.
Qed.

Lemma getExportedConversations_set_witness :
  getExportedConversations emptyWorld = [].
Proof. apply (getExportedConversations_set emptyWorld []). reflexivity. Defined.

(** Marking a conversation with a non-empty id puts the id in the store and
    keeps what the store held, changes nothing else, and does nothing the
    second time; marking without an id, or with the empty id, does nothing. *)
Theorem markAsExported_round_trip (w : World) (conversationId x : jstring) :
  conversationId <> [] ->
  let w' := markAsExported (Some conversationId) w in
  JSSet.has (getExportedConversations w') conversationId = true
  /\ JSSet.has (getExportedConversations w') x
     = JSSet.has (getExportedConversations w) x || JS.eqb x conversationId
  /\ markAsExported (Some conversationId) w' = w'
  /\ worker w' = worker w
  /\ sinkMessages w' = sinkMessages w
  /\ clicks w' = clicks w
  /\ markAsExported None w = w
  /\ markAsExported (Some []) w = w.
Proof.
  intros Hid w'. subst w'.
  pose proof (getExportedConversations_markAsExported w conversationId Hid) as Hget.
  assert (Hin : JSSet.has (JSSet.add (getExportedConversations w) conversationId)
                  conversationId = true).
  { rewrite has_add. apply orb_true_iff. right. now apply eqb_eq. }
  split; [now rewrite Hget|]. split; [now rewrite Hget, has_add|].
  split.
  { unfold markAsExported at 1. rewrite (present_Some _ Hid). simpl negb. cbv iota.
    change (valueOf (Some conversationId)) with conversationId.
    rewrite Hget, (add_member _ _ Hin).
    unfold markAsExported. rewrite (present_Some _ Hid). reflexivity. }
  unfold markAsExported. rewrite (present_Some _ Hid). simpl. repeat split.
Qed.

Lemma markAsExported_round_trip_witness :
  JSSet.has (getExportedConversations
               (markAsExported (Some (link_id linkB)) trackedWorld))
            (link_id linkB) = true.
Proof.
  apply (markAsExported_round_trip trackedWorld (link_id linkB) []). discriminate.
Defined.

(** A download that starts, for a non-empty id, puts the id in the service
    worker's set and stores exactly that set; a download that starts without
    id, or that is rejected, changes nothing; the answer tells which. *)
Theorem downloadFile_tracking (w : World) (conversationId x : jstring)
    (d : nat) (message : jstring) :
  conversationId <> [] ->
  let started := downloadFile (Started d) (Some conversationId) w in
  JSSet.has (worker (fst started)) conversationId = true
  /\ JSSet.has (worker (fst started)) x
     = JSSet.has (worker w) x || JS.eqb x conversationId
  /\ stored (fst started) = Some (JSSet.toArray (worker (fst started)))
  /\ success (snd started) = true
  /\ downloadFile (Started d) None w
     = (w, {| success := true; downloadId := Some d; error := None |})
  /\ downloadFile (Rejected message) (Some conversationId) w
     = (w, {| success := false; downloadId := None; error := Some message |}).
Proof.
  intros Hid started. subst started. unfold downloadFile.
  rewrite (present_Some _ Hid). simpl.
  split; [rewrite has_add; apply orb_true_iff; right; now apply eqb_eq|].
  split; [apply has_add|]. repeat split.
Qed.

Lemma downloadFile_tracking_witness :
  JSSet.has (worker (fst (downloadFile (Started 3) (Some (link_id linkA)) emptyWorld)))
            (link_id linkA) = true.
Proof.
  apply (downloadFile_tracking emptyWorld (link_id linkA) [] 3 []). discriminate.
Defined.

(** ** What the exports keep *)

Section WorldInvariant.

(** A property of the shared state that every step of an export keeps. *)
Variable P : World -> Prop.

Hypothesis keep_click : forall href w, P w -> P (logClick href w).
Hypothesis keep_message :
  forall m w, (exists t, filename m = sanitizeFilename t +++ lit ".md") ->
              P w -> P (logMessage m w).
Hypothesis keep_download :
  forall outcome conversationId w, P w -> P (fst (downloadFile outcome conversationId w)).
Hypothesis keep_mark : forall conversationId w, P w -> P (markAsExported conversationId w).

Lemma kept_by_exportCurrentConversation (e : SingleExport) (w : World) :
  P w -> P (fst (exportCurrentConversation e w)).
Proof.
  intros H. unfold exportCurrentConversation.
  destruct (current e) as [conversation|]; [|exact H].
  set (m := {| sender := FromSingle |}).
  assert (Hm : P (logMessage m w)) by (apply keep_message; [now eexists|exact H]).
  destruct (singleReply e) as [message|outcome].
  - simpl. destruct (present (id conversation)); simpl; auto.
  - pose proof (keep_download outcome (id conversation) _ Hm) as Hd.
    destruct (downloadFile outcome (id conversation) (logMessage m w)) as [w' response].
    simpl in *. destruct (success response && present (id conversation)); auto.
Qed.

Lemma kept_by_runConcurrent (es : list SingleExport) (w : World) :
  P w -> P (runConcurrent es w).
Proof.
  unfold runConcurrent. revert w. induction es as [|e es IH]; intros w H;
    [exact H|].
  simpl. apply IH. now apply kept_by_exportCurrentConversation.
Qed.

Lemma kept_by_exportItem (i : nat) (e : ItemEnv) (link : ConversationLink)
    (st : BatchState) :
  P (world st) -> P (world (exportItem i e link st)).
Proof.
  intros H. unfold exportItem.
  destruct (JSSet.has (exportedSet st) (link_id link)); [exact H|].
  destruct (linkLookup e); simpl; [|exact H..].
  assert (Hc : P (runConcurrent (concurrent e) (logClick (link_href link) (world st))))
    by (apply kept_by_runConcurrent, keep_click, H).
  destruct (loaded e); simpl; [|exact Hc].
  destruct (extracted e) as [conversation|]; [|exact Hc].
  set (m := {| sender := FromBatch i |}).
  assert (Hm : P (logMessage m (runConcurrent (concurrent e)
                                  (logClick (link_href link) (world st)))))
    by (apply keep_message; [now eexists|exact Hc]).
  destruct (reply e) as [message|outcome]; [exact Hm|].
  pose proof (keep_download outcome (Some (link_id link)) _ Hm) as Hd.
  destruct (downloadFile outcome (Some (link_id link)) _) as [w' response].
  simpl in *. now apply keep_mark.
Qed.

Lemma kept_by_exportLoop (env : nat -> ItemEnv) (links : list ConversationLink) :
  forall i st, P (world st) -> P (world (exportLoop env i links st)).
Proof.
  induction links as [|link rest IH]; intros i st H; [exact H|].
  simpl. apply IH. now apply kept_by_exportItem.
Qed.

Lemma kept_by_exportAllConversations (env : nat -> ItemEnv)
    (links : list ConversationLink) (w : World) :
  P w -> P (fst (exportAllConversations env links w)).
Proof.
  intros H. unfold exportAllConversations.
  destruct (Nat.eqb (List.length links) 0); [exact H|].
  simpl. now apply kept_by_exportLoop.
Qed.

End WorldInvariant.

Lemma covers_downloadFile (outcome : DownloadOutcome) (conversationId : option jstring)
    (w : World) :
  covers w -> covers (fst (downloadFile outcome conversationId w)).
Proof.
  intros H. unfold downloadFile. destruct outcome; [|exact H].
  destruct (present conversationId); [|exact H].
  intros x Hx. simpl in *. unfold getExportedConversations. simpl.
  rewrite ofArray_has. exact Hx.
Qed.

Lemma covers_markAsExported (conversationId : option jstring) (w : World) :
  covers w -> covers (markAsExported conversationId w).
Proof.
  intros H. unfold markAsExported.
  destruct (present conversationId) eqn:Hp; [|exact H].
  simpl negb. cbv iota. intros x Hx.
  rewrite getExportedConversations_setStored
    by (apply add_NoDup, getExportedConversations_NoDup).
  rewrite has_add. apply orb_true_iff. left. now apply H.
Qed.

(** The exports never take an id of the service worker's set out of the
    store: when the store holds every id of the set before a batch run or
    an export of the current conversation, it holds every id of the set
    after it, whatever fails on the way. *)
Theorem store_covers_worker (env : nat -> ItemEnv) (links : list ConversationLink)
    (e : SingleExport) (w : World) :
  covers w ->
  covers (fst (exportAllConversations env links w))
  /\ covers (fst (exportCurrentConversation e w)).
Proof.
  intros H. split.
  - apply kept_by_exportAllConversations; auto using covers_downloadFile,
      covers_markAsExported.
  - apply kept_by_exportCurrentConversation; auto using covers_downloadFile,
      covers_markAsExported.
Qed.

Lemma store_covers_worker_witness :
  covers (fst (exportAllConversations racingEnv [linkA; linkB] trackedWorld)).
Proof.
  apply (store_covers_worker racingEnv [linkA; linkB]
           {| current := None; singleReply := Undelivered [] |} trackedWorld).
  intros x Hx. exact Hx.
Defined.

(** ** Deduplication across runs *)

Lemma exportedSet_exportItem (x : jstring) (i : nat) (e : ItemEnv)
    (link : ConversationLink) (st : BatchState) :
  JSSet.has (exportedSet st) x = true ->
  JSSet.has (exportedSet (exportItem i e link st)) x = true.
Proof.
  intros H. unfold exportItem.
  destruct (JSSet.has (exportedSet st) (link_id link)); [exact H|].
  destruct (linkLookup e); simpl; [|exact H..].
  destruct (loaded e); simpl; [|exact H].
  destruct (extracted e); [|exact H].
  destruct (reply e); [exact H|].
  destruct (downloadFile _ _ _). simpl. rewrite has_add, H. reflexivity.
Qed.

Lemma exportedSet_exportLoop (x : jstring) (env : nat -> ItemEnv)
    (links : list ConversationLink) :
  forall i st, JSSet.has (exportedSet st) x = true ->
               JSSet.has (exportedSet (exportLoop env i links st)) x = true.
Proof.
  induction links as [|link rest IH]; intros i st H; [exact H|].
  simpl. apply IH. now apply exportedSet_exportItem.
Qed.

(** A candidate found in the set of the run is skipped, and the whole run
    makes no Download Sink call for it. *)
Lemma skipped_in_run (env : nat -> ItemEnv) (links : list ConversationLink)
    (w : World) (i : nat) (link : ConversationLink) :
  nth_error links i = Some link ->
  JSSet.has (exportedSet (stateAt env links w i)) (link_id link) = true ->
  stateAt env links w (S i)
  = {| world := world (stateAt env links w i);
       exportedSet := exportedSet (stateAt env links w i);
       results := countSkipped (results (stateAt env links w i)) |}
  /\ sinkCalls i (fst (exportAllConversations env links w)) = sinkCalls i w.
Proof.
  intros Hnth Hhas.
  assert (Hskip : stateAt env links w (S i)
                  = {| world := world (stateAt env links w i);
                       exportedSet := exportedSet (stateAt env links w i);
                       results := countSkipped (results (stateAt env links w i)) |}).
  { rewrite (stateAt_step env links w i link Hnth). unfold exportItem.
    now rewrite Hhas. }
  split; [exact Hskip|].
  assert (Hlen : i < List.length links) by (apply nth_error_Some; congruence).
  unfold exportAllConversations.
  destruct (Nat.eqb_spec (List.length links) 0) as [H0|_]; [lia|].
  simpl fst. rewrite (exportLoop_split env links w i link Hnth).
  destruct (sinkCalls_exportLoop env i (skipn (S i) links) (S i)
              (stateAt env links w (S i))) as [Hlo Hhi].
  replace (Nat.leb (S i) i) with false in Hhi by (symmetry; apply Nat.leb_gt; lia).
  rewrite andb_false_l in Hhi.
  destruct (sinkCalls_exportLoop env i (firstn i links) 0 (initialState w links))
    as [Hlo0 Hhi0].
  fold (stateAt env links w i) in Hlo0, Hhi0.
  rewrite length_firstn, Nat.min_l in Hhi0 by lia.
  replace (Nat.ltb i (0 + i)) with false in Hhi0
    by (symmetry; apply Nat.ltb_ge; lia).
  rewrite andb_false_r in Hhi0.
  change (world (initialState w links)) with w in Hlo0, Hhi0.
  assert (Hw : sinkCalls i (world (stateAt env links w (S i)))
               = sinkCalls i (world (stateAt env links w i)))
    by now rewrite Hskip.
  lia.
Qed.

(** A candidate whose id is in the store when the batch run starts is
    skipped wherever it stands in the list: its turn increments [skipped]
    by one and changes nothing else, and the run makes no Download Sink
    call for it. *)
Theorem tracked_candidate_is_skipped (env : nat -> ItemEnv)
    (links : list ConversationLink) (w : World) (i : nat) (link : ConversationLink) :
  nth_error links i = Some link ->
  JSSet.has (getExportedConversations w) (link_id link) = true ->
  let st := stateAt env links w i in
  let st' := stateAt env links w (S i) in
  results st' = countSkipped (results st)
  /\ world st' = world st
  /\ exportedSet st' = exportedSet st
  /\ sinkCalls i (fst (exportAllConversations env links w)) = sinkCalls i w.
Proof.
  intros Hnth Hstore st st'.
  assert (Hset : JSSet.has (exportedSet st) (link_id link) = true)
    by (apply exportedSet_exportLoop; exact Hstore).
  destruct (skipped_in_run env links w i link Hnth Hset) as [Hskip Hcalls].
  subst st st'. rewrite Hskip. simpl. repeat split. exact Hcalls.
Qed.

Lemma tracked_candidate_is_skipped_witness :
  results (stateAt rejectingEnv [linkB; linkA] trackedWorld 2)
  = countSkipped (results (stateAt rejectingEnv [linkB; linkA] trackedWorld 1)).
Proof.
  apply (tracked_candidate_is_skipped rejectingEnv [linkB; linkA] trackedWorld 1 linkA);
    reflexivity.
Defined.

(** Once a download has started for a candidate, the id stays in the set of
    the service worker until the end of the run. *)
Lemma started_in_worker (env : nat -> ItemEnv) (links : list ConversationLink)
    (w : World) (i : nat) (link : ConversationLink) (conversation : Conversation)
    (d : nat) :
  nth_error links i = Some link ->
  link_id link <> [] ->
  JSSet.has (exportedSet (stateAt env links w i)) (link_id link) = false ->
  linkElement (env i) = true ->
  loaded (env i) = true ->
  extracted (env i) = Some conversation ->
  reply (env i) = Delivered (Started d) ->
  JSSet.has (worker (fst (exportAllConversations env links w))) (link_id link) = true.
Proof.
  intros Hnth Hid Hnew Hlink Hload Hext Hreply.
  assert (Hlen : i < List.length links) by (apply nth_error_Some; congruence).
  unfold exportAllConversations.
  destruct (Nat.eqb_spec (List.length links) 0) as [H0|_]; [lia|].
  simpl fst. rewrite (exportLoop_split env links w i link Hnth).
  apply (kept_by_exportLoop (fun w => JSSet.has (worker w) (link_id link) = true)).
  - intros href w0 H. exact H.
  - intros m w0 _ H. exact H.
  - intros outcome cid w0 H. unfold downloadFile.
    destruct outcome; [|exact H]. destruct (present cid); [|exact H].
    simpl. rewrite has_add, H. reflexivity.
  - intros cid w0 H. unfold markAsExported.
    now destruct (negb (present cid)).
  - rewrite (stateAt_step env links w i link Hnth). unfold exportItem.
    unfold linkElement in Hlink.
    destruct (linkLookup (env i)); try discriminate Hlink.
    rewrite Hnew, Hload, Hext, Hreply. simpl.
    assert (Htr : truthy (link_id link) = true)
      by (destruct (link_id link); [congruence|reflexivity]).
    unfold markAsExported, downloadFile. simpl. rewrite Htr. simpl.
    rewrite has_add. apply orb_true_iff. right. now apply eqb_eq.
Qed.

(** When the store holds every id of the service worker's set at the start
    of a run, a candidate whose download starts in that run is in the store
    at its end, whatever happens to the candidates after it; and a later
    run from that state, over any list and whatever the page does, skips
    every candidate with that id without a Download Sink call. *)
Theorem started_download_skipped_next_run
    (env env' : nat -> ItemEnv) (links links' : list ConversationLink)
    (w : World) (i j : nat) (link link' : ConversationLink)
    (conversation : Conversation) (d : nat) :
  covers w ->
  nth_error links i = Some link ->
  link_id link <> [] ->
  JSSet.has (exportedSet (stateAt env links w i)) (link_id link) = false ->
  linkElement (env i) = true ->
  loaded (env i) = true ->
  extracted (env i) = Some conversation ->
  reply (env i) = Delivered (Started d) ->
  nth_error links' j = Some link' ->
  link_id link' = link_id link ->
  let w' := fst (exportAllConversations env links w) in
  JSSet.has (getExportedConversations w') (link_id link) = true
  /\ results (stateAt env' links' w' (S j))
     = countSkipped (results (stateAt env' links' w' j))
  /\ sinkCalls j (fst (exportAllConversations env' links' w')) = sinkCalls j w'.
Proof.
  intros Hcov Hnth Hid Hnew Hlink Hload Hext Hreply Hnth' Hsame w'.
  assert (Hstore : JSSet.has (getExportedConversations w') (link_id link) = true).
  { assert (Hcov' : covers w')
      by (apply kept_by_exportAllConversations;
          auto using covers_downloadFile, covers_markAsExported).
    apply Hcov'. eapply started_in_worker; eauto. }
  split; [exact Hstore|].
  assert (Hset : JSSet.has (exportedSet (stateAt env' links' w' j)) (link_id link') = true)
    by (apply exportedSet_exportLoop; rewrite Hsame; exact Hstore).
  destruct (skipped_in_run env' links' w' j link' Hnth' Hset) as [Hskip Hcalls].
  split; [now rewrite Hskip|exact Hcalls].
Qed.

Lemma started_download_skipped_next_run_witness :
  let w' := fst (exportAllConversations racingEnv [linkA; linkB] emptyWorld) in
  JSSet.has (getExportedConversations w') (link_id linkA) = true
  /\ results (stateAt rejectingEnv [linkA] w' 1)
     = countSkipped (results (stateAt rejectingEnv [linkA] w' 0))
  /\ sinkCalls 0 (fst (exportAllConversations rejectingEnv [linkA] w')) = sinkCalls 0 w'.
Proof.
  apply (started_download_skipped_next_run racingEnv rejectingEnv [linkA; linkB] [linkA]
           emptyWorld 0 0 linkA linkA (conversationOf linkA) 1);
    try reflexivity; discriminate.
Defined.

(** ** File names handed to the Download Sink *)

Lemma sanitizeFilename_chars (t : jstring) :
  Forall (fun c => isInvalidChar c = false /\ isWhiteSpace c = false)
         (sanitizeFilename t).
Proof.
  destruct (sanitizeFilename_cases t) as [->|[-> _]].
  - repeat constructor.
  - pose proof (cleanTitle_chars t) as H.
    rewrite <- (firstn_skipn 100 (cleanTitle t)) in H.
    now apply Forall_app in H.
Qed.

Lemma sanitizeFilename_length (t : jstring) :
  1 <= List.length (sanitizeFilename t) <= 100.
Proof.
  destruct (sanitizeFilename_cases t) as [->|[E Hne]].
  - simpl. lia.
  - split.
    + destruct (sanitizeFilename t); [congruence|simpl; lia].
    + rewrite E, length_firstn. lia.
Qed.

Lemma sanitized_name_safe (m : SinkMessage) :
  (exists t, filename m = sanitizeFilename t +++ lit ".md") -> safeFilename m.
Proof.
  intros [t E]. unfold safeFilename. rewrite E. split; [|split].
  - apply Forall_app. split; [apply sanitizeFilename_chars|repeat constructor].
  - rewrite length_app. pose proof (sanitizeFilename_length t). simpl. lia.
  - now exists (sanitizeFilename t).
Qed.

(** Every download message of a batch run or of an export of the current
    conversation names a file by a sanitized title and the suffix [.md]:
    the name has no slash, backslash or other removed character, no white
    space, and at most 103 characters, whatever the title of the page is. *)
Theorem sink_filenames_safe (env : nat -> ItemEnv) (links : list ConversationLink)
    (e : SingleExport) (w : World) :
  Forall safeFilename (sinkMessages w) ->
  Forall safeFilename (sinkMessages (fst (exportAllConversations env links w)))
  /\ Forall safeFilename (sinkMessages (fst (exportCurrentConversation e w))).
Proof.
  intros H.
  assert (Hmsg : forall m w0,
            (exists t, filename m = sanitizeFilename t +++ lit ".md") ->
            Forall safeFilename (sinkMessages w0) ->
            Forall safeFilename (sinkMessages (logMessage m w0))).
  { intros m w0 Hm H0. simpl. apply Forall_app. split; [exact H0|].
    constructor; [now apply sanitized_name_safe|constructor]. }
  assert (Hdl : forall outcome cid w0,
            Forall safeFilename (sinkMessages w0) ->
            Forall safeFilename (sinkMessages (fst (downloadFile outcome cid w0)))).
  { intros outcome cid w0 H0. unfold downloadFile.
    destruct outcome; [|exact H0]. now destruct (present cid). }
  assert (Hmark : forall cid w0,
            Forall safeFilename (sinkMessages w0) ->
            Forall safeFilename (sinkMessages (markAsExported cid w0))).
  { intros cid w0 H0. unfold markAsExported. now destruct (negb (present cid)). }
  split.
  - apply (kept_by_exportAllConversations
             (fun w0 => Forall safeFilename (sinkMessages w0))); auto.
  - apply (kept_by_exportCurrentConversation
             (fun w0 => Forall safeFilename (sinkMessages w0))); auto.
Qed.

Lemma sink_filenames_safe_witness :
  Forall safeFilename
    (sinkMessages (fst (exportAllConversations racingEnv [linkA; linkB] emptyWorld))).
Proof.
  apply (sink_filenames_safe racingEnv [linkA; linkB]
           {| current := None; singleReply := Undelivered [] |} emptyWorld).
  constructor.
Defined.

(** ** Restarts of the service worker *)

Import Lifecycle.

Lemma worker_start (x : Extension) :
  worker (shared (start x)) = getExportedConversations (shared x).
Proof.
  unfold start, initialize, load, getExportedConversations. simpl.
  now destruct (stored (shared x)).
Qed.

Lemma stored_start (x : Extension) :
  stored (shared (start x)) = stored (shared x).
Proof.
  unfold start, initialize, load. simpl.
  destruct (stored (shared x)) eqn:E; simpl; now rewrite ?E.
Qed.

Lemma storedAutoSync_start (x : Extension) :
  storedAutoSync (start x) = storedAutoSync x.
Proof. reflexivity. Qed.

Lemma enabled_start (x : Extension) (enabled : bool) :
  storedAutoSync x = Some enabled -> autoSyncEnabled (start x) = enabled.
Proof. intros H. unfold start, initialize, load. simpl. now rewrite H. Qed.

Lemma enabled_restarts (x : Extension) (enabled : bool) (restarts : nat) :
  storedAutoSync x = Some enabled -> autoSyncEnabled x = enabled ->
  storedAutoSync (Nat.iter restarts start x) = Some enabled
  /\ autoSyncEnabled (Nat.iter restarts start x) = enabled.
Proof.
  intros Hs He. induction restarts as [|n [IHs IHe]]; [now split|].
  change (Nat.iter (S n) start x) with (start (Nat.iter n start x)).
  split; [now rewrite storedAutoSync_start|now apply enabled_start].
Qed.

(** A start during which nothing else happens is the start that runs
    [initialize] to its end. *)
Lemma restart_start (w : Worker) : restart w = settled (start (extension w)).
Proof. reflexivity. Qed.

Lemma restarts_start (w : Worker) (restarts : nat) :
  extension (Nat.iter restarts restart w) = Nat.iter restarts start (extension w).
Proof.
  induction restarts as [|n IH]; [reflexivity|].
  change (Nat.iter (S n) restart w) with (restart (Nat.iter n restart w)).
  rewrite restart_start. cbn [extension settled]. now rewrite IH.
Qed.


(** After a start that has completed, the set of the service worker is the
    set that the content script reads from the storage: both hold exactly
    the stored ids, and the start writes nothing to the storage.  A
    [getExported] request that is handled after the start and before the
    storage read of [initialize] has resolved is answered with no id,
    whatever is stored. *)
Theorem tracking_survives_restart (w : Worker) (y : jstring) :
  let x := extension w in
  restart w = settled (start x)
  /\ worker (shared (start x)) = getExportedConversations (shared x)
  /\ snd (handle GetExported (restart w))
     = Exported (JSSet.toArray (getExportedConversations (shared x)))
  /\ snd (handle GetExported (wake w)) = Exported []
  /\ snd (handle GetExported (serve (wake w))) = Exported []
  /\ stored (shared (start x)) = stored (shared x)
  /\ (JSSet.has (worker (shared (start x))) y = true
      <-> In y (match stored (shared x) with Some a => a | None => [] end))
  /\ covers (shared (start x)).
Proof.
  cbv zeta. set (x := extension w).
  pose proof (worker_start x) as Hw. pose proof (stored_start x) as Hs.
  split; [reflexivity|]. split; [exact Hw|].
  split; [rewrite restart_start; unfold handle, onMessage; cbn [snd extension settled];
          fold x; now rewrite Hw|].
  split; [reflexivity|]. split; [reflexivity|]. split; [exact Hs|].
  split.
  - rewrite Hw. unfold getExportedConversations. rewrite ofArray_has, existsb_exists.
    split.
    + intros (z & Hz & E). apply eqb_eq in E. now subst z.
    + intros H. exists y. split; [exact H|now apply eqb_eq].
  - intros z Hz. rewrite Hw in Hz.
    unfold getExportedConversations in *. rewrite Hs. exact Hz.
Qed.

Lemma tracking_survives_restart_witness :
  JSSet.has (worker (shared (start {| shared := trackedWorld; autoSyncEnabled := false;
                                      storedAutoSync := None |})))
            (link_id linkA) = true.
Proof.
  apply (proj1 (proj2 (proj2 (proj2 (proj2 (proj2 (proj2
           (tracking_survives_restart
              (settled {| shared := trackedWorld; autoSyncEnabled := false;
                          storedAutoSync := None |}) (link_id linkA))))))))).
  simpl. now left.
Defined.

(** A download that starts is remembered across a restart of the service
    worker: its id is in the answer to [getExported] after the restart. *)
Theorem download_survives_restart (x : Extension) (conversationId : jstring)
    (d : nat) :
  conversationId <> [] ->
  let x1 := fst (onMessage (Download (Some conversationId) (Started d)) x) in
  JSSet.has (worker (shared x1)) conversationId = true
  /\ JSSet.has (worker (shared (start x1))) conversationId = true
  /\ JSSet.has (getExportedConversations (shared (start x1))) conversationId = true.
Proof.
  intros Hid x1.
  assert (H1 : JSSet.has (worker (shared x1)) conversationId = true
               /\ stored (shared x1) = Some (JSSet.toArray (worker (shared x1)))).
  { subst x1. unfold onMessage, downloadFile. rewrite (present_Some _ Hid). simpl.
    split; [|reflexivity].
    rewrite has_add. apply orb_true_iff. right. now apply eqb_eq. }
  destruct H1 as [Hin Hst].
  pose proof (worker_start x1) as Hw.
  assert (Hget : JSSet.has (getExportedConversations (shared x1)) conversationId = true).
  { unfold getExportedConversations. rewrite Hst, ofArray_has. exact Hin. }
  split; [exact Hin|]. split; [now rewrite Hw|].
  unfold getExportedConversations in *. now rewrite stored_start.
Qed.

Lemma download_survives_restart_witness :
  JSSet.has
    (worker (shared (start (fst (onMessage (Download (Some (link_id linkA)) (Started 1))
                                   {| shared := emptyWorld; autoSyncEnabled := false;
                                      storedAutoSync := None |})))))
    (link_id linkA) = true.
Proof.
  apply (download_survives_restart
           {| shared := emptyWorld; autoSyncEnabled := false; storedAutoSync := None |}
           (link_id linkA) 1).
  discriminate.
Defined.


(** Clear tracking in the popup empties the stored array but not the set of
    the running service worker: the content script sees no exported
    conversation, the service worker still answers with its ids, and the
    next download that starts writes all of them back to the storage. *)
Theorem popup_clear_is_undone (x : Extension) (conversationId y : jstring) (d : nat) :
  conversationId <> [] ->
  let x1 := handleClearTracking true x in
  let x2 := fst (onMessage (Download (Some conversationId) (Started d)) x1) in
  getExportedConversations (shared x1) = []
  /\ snd (onMessage GetExported x1) = Exported (JSSet.toArray (worker (shared x)))
  /\ (JSSet.has (worker (shared x)) y = true ->
      JSSet.has (getExportedConversations (shared x2)) y = true)
  /\ handleClearTracking false x = x.
Proof.
  intros Hid x1 x2. split; [reflexivity|]. split; [reflexivity|].
  split; [|reflexivity].
  intros Hy. subst x2 x1. unfold onMessage, downloadFile, handleClearTracking.
  rewrite (present_Some _ Hid). simpl.
  unfold getExportedConversations. simpl. rewrite ofArray_has.
  change (JSSet.has (JSSet.add (worker (shared x)) conversationId) y = true).
  rewrite has_add, Hy. reflexivity.
Qed.

Lemma popup_clear_is_undone_witness :
  let x := {| shared := trackedWorld; autoSyncEnabled := false; storedAutoSync := None |} in
  JSSet.has
    (getExportedConversations
       (shared (fst (onMessage (Download (Some (link_id linkB)) (Started 2))
                       (handleClearTracking true x)))))
    (link_id linkA) = true.
Proof.
  intros x.
  apply (popup_clear_is_undone x (link_id linkB) (link_id linkA) 2);
    [discriminate|reflexivity].
Defined.

(** ** Trimming *)

Lemma dropWhile_head (p : char -> bool) (s : jstring) (c : char) :
  hd_error (dropWhile p s) = Some c -> p c = false.
Proof.
  induction s as [|a s IH]; simpl; [discriminate|].
  destruct (p a) eqn:E; [exact IH|]. simpl. congruence.
Qed.

Lemma dropWhile_stop (p : char -> bool) (s : jstring) (c : char) :
  p c = false -> dropWhile p (s ++ [c]) = dropWhile p s ++ [c].
Proof.
  intros Hc. induction s as [|a s IH]; simpl; [now rewrite Hc|].
  destruct (p a); [exact IH|reflexivity].
Qed.

Lemma dropWhile_clean (p : char -> bool) (s : jstring) :
  (forall c, hd_error s = Some c -> p c = false) -> dropWhile p s = s.
Proof.
  destruct s as [|a s]; [reflexivity|]. intros H. simpl.
  now rewrite (H a eq_refl).
Qed.

Lemma trimEnd_cons (c : char) (s : jstring) :
  isWhiteSpace c = false -> trimEnd (c :: s) = c :: trimEnd s.
Proof.
  intros Hc. unfold trimEnd, trimStart. simpl rev.
  rewrite (dropWhile_stop _ _ _ Hc), rev_app_distr. reflexivity.
Qed.

Lemma trim_trimmed (s : jstring) : trimmed (trim s).
Proof.
  unfold trim. split.
  - intros c. unfold trimStart.
    destruct (dropWhile isWhiteSpace s) as [|a t] eqn:E; [discriminate|].
    assert (Ha : isWhiteSpace a = false)
      by (apply (dropWhile_head isWhiteSpace s); now rewrite E).
    rewrite (trimEnd_cons _ _ Ha). simpl. congruence.
  - intros c. unfold trimEnd at 1. rewrite rev_involutive. unfold trimStart at 1.
    apply dropWhile_head.
Qed.

Lemma trim_of_trimmed (s : jstring) : trimmed s -> trim s = s.
Proof.
  intros [Hs He]. unfold trim, trimStart. rewrite (dropWhile_clean _ _ Hs).
  unfold trimEnd, trimStart. rewrite (dropWhile_clean _ _ He).
  apply rev_involutive.
Qed.

Section TransducerOutput.

Variable toLowerCase : jstring -> jstring.

Local Abbreviation processNode := (MarkdownConverter.processNode toLowerCase).
Local Abbreviation processList := (MarkdownConverter.processList toLowerCase).
Local Abbreviation detectLanguage := (MarkdownConverter.detectLanguage toLowerCase).
Local Abbreviation htmlToMarkdown := (MarkdownConverter.htmlToMarkdown toLowerCase).

(** The Markdown of an element neither starts nor ends with white space, so
    that trimming it again, as the extraction does to test it, changes
    nothing; it is the trimmed conversion of the element. *)
Theorem htmlToMarkdown_trimmed (anc : list Node) (element : option Node) :
  trimmed (htmlToMarkdown anc element)
  /\ trim (htmlToMarkdown anc element) = htmlToMarkdown anc element
  /\ (forall e, element = Some e ->
        htmlToMarkdown anc element = trim (processNode [] e)).
Proof.
  assert (H : trimmed (htmlToMarkdown anc element)).
  { destruct element as [e|]; simpl.
    - apply trim_trimmed.
    - split; intros c Hc; discriminate Hc. }
  split; [exact H|]. split; [now apply trim_of_trimmed|].
  intros e ->. reflexivity.
Qed.

End TransducerOutput.

Lemma htmlToMarkdown_trimmed_witness :
  MarkdownConverter.htmlToMarkdown asciiLower [] (Some sampleParagraph) = lit "`x = 1`".
Proof.
  rewrite ((proj2 (proj2 (htmlToMarkdown_trimmed asciiLower [] (Some sampleParagraph))))
             sampleParagraph eq_refl).
  reflexivity.
Defined.

(** ** Lists, quotes and code blocks *)

Lemma flat_map_filter {A B} (p : A -> bool) (f : A -> B) (l : list A) :
  flat_map (fun x => if p x then [f x] else []) l = map f (filter p l).
Proof.
  induction l as [|x l IH]; [reflexivity|].
  simpl. rewrite IH. now destruct (p x).
Qed.

Lemma mapiFrom_map {A B C} (f : nat -> B -> C) (g : A -> B) (l : list A) :
  forall n, mapiFrom n f (map g l) = mapiFrom n (fun i x => f i (g x)) l.
Proof.
  induction l as [|x l IH]; intros n; [reflexivity|]. simpl. now rewrite IH.
Qed.

Lemma split_nonempty (sep : char) (s : jstring) : split sep s <> [].
Proof.
  induction s as [|c s IH]; simpl; [discriminate|].
  destruct (c =? sep)%N; [discriminate|].
  destruct (split sep s); [congruence|discriminate].
Qed.

Lemma join_split (sep : char) (s : jstring) : join [sep] (split sep s) = s.
Proof.
  induction s as [|c s IH]; [reflexivity|].
  simpl. destruct (c =? sep)%N eqn:E.
  - apply N.eqb_eq in E. subst c.
    rewrite join_cons by apply split_nonempty. simpl. now rewrite IH.
  - pose proof (split_nonempty sep s) as Hne.
    destruct (split sep s) as [|h t]; [congruence|].
    destruct t as [|h' t].
    + simpl in *. now rewrite IH.
    + change (join [sep] ((c :: h) :: h' :: t))
        with (c :: join [sep] (h :: h' :: t)).
      now rewrite IH.
Qed.

Lemma split_free (sep : char) (s : jstring) :
  Forall (fun c => (c =? sep)%N = false) s -> split sep s = [s].
Proof.
  induction 1 as [|c s Hc _ IH]; [reflexivity|].
  simpl. now rewrite Hc, IH.
Qed.

Lemma split_app_sep (sep : char) (a b : jstring) :
  Forall (fun c => (c =? sep)%N = false) a ->
  split sep (a ++ sep :: b) = a :: split sep b.
Proof.
  induction 1 as [|c a Hc _ IH]; simpl.
  - now rewrite N.eqb_refl.
  - now rewrite Hc, IH.
Qed.

Lemma split_join (sep : char) (parts : list jstring) :
  parts <> [] ->
  Forall (Forall (fun c => (c =? sep)%N = false)) parts ->
  split sep (join [sep] parts) = parts.
Proof.
  induction parts as [|x parts IH]; [congruence|]. intros _ H.
  inversion H as [|? ? Hx Hrest]; subst.
  destruct parts as [|y parts].
  - simpl. now apply split_free.
  - rewrite join_cons by discriminate.
    change (x +++ [sep] +++ join [sep] (y :: parts))
      with (x ++ sep :: join [sep] (y :: parts)).
    rewrite (split_app_sep _ _ _ Hx), IH by (assumption || discriminate).
    reflexivity.
Qed.

Lemma split_parts_free (sep : char) (s : jstring) :
  Forall (Forall (fun c => (c =? sep)%N = false)) (split sep s).
Proof.
  induction s as [|c s IH]; simpl; [repeat constructor|].
  destruct (c =? sep)%N eqn:E; [constructor; [constructor|exact IH]|].
  destruct (split sep s) as [|h t]; [repeat constructor; exact E|].
  inversion IH; subst. constructor; [constructor; assumption|assumption].
Qed.

Lemma startsWith_app (p w : jstring) : startsWith (p ++ w) p = true.
Proof.
  induction p as [|c p IH]; [now destruct w|]. simpl. now rewrite N.eqb_refl, IH.
Qed.

Section Blocks.

Variable toLowerCase : jstring -> jstring.

Local Abbreviation processNode := (MarkdownConverter.processNode toLowerCase).
Local Abbreviation processList := (MarkdownConverter.processList toLowerCase).
Local Abbreviation detectLanguage := (MarkdownConverter.detectLanguage toLowerCase).

(** A list is converted item by item: only the children that are list items
    count, each is converted and trimmed, the item of index k gets the
    prefix [k+1. ] in an ordered list and [- ] in an unordered one, and the
    items are joined by single line feeds; the list element adds one line
    feed.  The items A, B, C give [1. A], [2. B], [3. C]. *)
Theorem processList_items (anc : list Node) (tag : jstring)
    (attrs : list (jstring * jstring)) (kids : list Node) (ordered : bool) :
  let listElement := Element tag attrs kids in
  processList anc listElement ordered
  = join [LF]
      (mapi (fun index item =>
               (if ordered then ofNat (index + 1) +++ lit ". " else lit "- ")
               +++ trim (processNode (listElement :: anc) item))
            (filter (isTag "li") kids))
  /\ (filter (isTag "li") kids = [] -> processList anc listElement ordered = [])
  /\ processNode anc (sampleList "ol") = text ["1. A"; "2. B"; "3. C"; ""]
  /\ processNode anc (sampleList "ul") = text ["- A"; "- B"; "- C"; ""].
Proof.
  intros listElement.
  assert (H : processList anc listElement ordered
              = join [LF]
                  (mapi (fun index item =>
                           (if ordered then ofNat (index + 1) +++ lit ". " else lit "- ")
                           +++ trim (processNode (listElement :: anc) item))
                        (filter (isTag "li") kids))).
  { unfold MarkdownConverter.processList, processListWith. subst listElement.
    cbv beta iota zeta. rewrite flat_map_filter. f_equal.
    unfold mapi. apply mapiFrom_map. }
  split; [exact H|]. split; [intros E; rewrite H, E; reflexivity|].
  split; reflexivity.
Qed.

(** A quote is converted line by line: the converted children are split at
    the line feeds, every line gets the prefix [> ], and two line feeds
    follow; cutting the output at its line feeds gives back exactly those
    prefixed lines, one for each line of the quoted text. *)
Theorem blockquote_lines (anc : list Node) (attrs : list (jstring * jstring))
    (kids : list Node) :
  let node := Element (lit "blockquote") attrs kids in
  let inner := List.concat (map (processNode (node :: anc)) kids) in
  let lines := map (fun line => lit "> " +++ line) (split LF inner) in
  processNode anc node = join [LF] lines +++ [LF; LF]
  /\ split LF (join [LF] lines) = lines
  /\ join [LF] (split LF inner) = inner
  /\ List.length lines = List.length (split LF inner)
  /\ Forall (fun line => startsWith line (lit "> ") = true) lines.
Proof.
  intros node inner lines. split; [reflexivity|]. split.
  - apply split_join.
    + subst lines. pose proof (split_nonempty LF inner).
      destruct (split LF inner); [congruence|discriminate].
    + subst lines. apply Forall_map.
      eapply Forall_impl; [|apply split_parts_free].
      intros line Hline. simpl. repeat (constructor; [reflexivity|]). exact Hline.
  - split; [apply join_split|]. split; [apply length_map|].
    subst lines. apply Forall_map, Forall_forall. intros line _.
    apply startsWith_app.
Qed.

Lemma replaceFirst_prefix (p w : jstring) : replaceFirst (p ++ w) p [] = w.
Proof.
  destruct p as [|c p]; [now destruct w|].
  cbn [replaceFirst app].
  change (c :: p ++ w) with ((c :: p) ++ w). rewrite startsWith_app. simpl.
  induction p as [|a p IH]; [reflexivity|exact IH].
Qed.

Lemma languageOfClasses_first (before after : list jstring) (prefix word : jstring) :
  prefix = lit "language-" \/ prefix = lit "lang-" ->
  Forall (fun cls => startsWith cls (lit "language-") = false
                     /\ startsWith cls (lit "lang-") = false) before ->
  languageOfClasses (before ++ (prefix +++ word) :: after) = Some word.
Proof.
  intros Hp H. induction H as [|cls before [H1 H2] _ IH].
  - simpl app. cbn [languageOfClasses]. destruct Hp as [-> | ->].
    + now rewrite startsWith_app, replaceFirst_prefix.
    + replace (startsWith (lit "lang-" +++ word) (lit "language-")) with false
        by reflexivity.
      now rewrite startsWith_app, replaceFirst_prefix.
  - simpl app. cbn [languageOfClasses]. now rewrite H1, H2.
Qed.


End Blocks.

Lemma processList_items_witness :
  MarkdownConverter.processList asciiLower [] (element "ul" [Text (lit "loose")]) false = [].
Proof.
  apply (proj1 (proj2 (processList_items asciiLower [] (lit "ul") []
                         [Text (lit "loose")] false))).
  reflexivity.
Defined.


(** ** Conversation ids and sidebar links *)

Import Page.

Lemma takeWhile_all (p : char -> bool) (s : jstring) :
  Forall (fun c => p c = true) (takeWhile p s).
Proof.
  induction s as [|c s IH]; simpl; [constructor|].
  destruct (p c) eqn:E; constructor; assumption.
Qed.

Lemma takeWhile_stop (p : char -> bool) (w rest : jstring) :
  Forall (fun c => p c = true) w ->
  (forall c, hd_error rest = Some c -> p c = false) ->
  takeWhile p (w ++ rest) = w.
Proof.
  intros Hw Hrest. induction Hw as [|c w Hc _ IH]; simpl.
  - destruct rest as [|c rest]; [reflexivity|]. simpl. now rewrite (Hrest c eq_refl).
  - now rewrite Hc, IH.
Qed.

Lemma matchConversationId_some (s w : jstring) :
  matchConversationId s = Some w -> w <> [] /\ idText w.
Proof.
  induction s as [|c s IH]; cbn [matchConversationId].
  - simpl. discriminate.
  - destruct (startsWith (c :: s) (lit "/c/")); [|exact IH].
    pose proof (takeWhile_all isIdChar (skipn 3 (c :: s))) as Hall.
    destruct (takeWhile isIdChar (skipn 3 (c :: s))) as [|a t]; [exact IH|].
    intros E. injection E as <-. split; [discriminate|exact Hall].
Qed.

Lemma matchConversationId_none (s : jstring) :
  includes s (lit "/c/") = false -> matchConversationId s = None.
Proof.
  induction s as [|c s IH]; cbn [matchConversationId includes]; intros H;
    apply orb_false_iff in H as [H1 H2]; rewrite H1; [reflexivity|auto].
Qed.

Lemma matchConversationId_round (conversationId rest : jstring) :
  conversationId <> [] -> idText conversationId ->
  (forall c, hd_error rest = Some c -> isIdChar c = false) ->
  matchConversationId (lit "/c/" +++ conversationId +++ rest) = Some conversationId.
Proof.
  intros Hne Hid Hrest.
  change (lit "/c/" +++ conversationId +++ rest)
    with (47 :: 99 :: 47 :: (conversationId ++ rest))%N.
  cbn [matchConversationId].
  change (startsWith (47 :: 99 :: 47 :: conversationId ++ rest)%N (lit "/c/"))
    with (startsWith (lit "/c/" ++ (conversationId ++ rest)) (lit "/c/")).
  rewrite startsWith_app. cbn [skipn].
  rewrite (takeWhile_stop isIdChar conversationId rest Hid Hrest).
  destruct conversationId; [congruence|reflexivity].
Qed.

(** The id read from a URL is never empty and is made of the characters [a]
    to [f], digits and hyphens only.  The path [/c/] followed by such an id,
    and then by nothing or by another character, gives the id back; a path
    without [/c/] gives no id. *)
Theorem conversation_id_round_trip (p : Page) (conversationId rest path : jstring) :
  (forall w, getConversationIdFromUrl p = Some w -> w <> [] /\ idText w)
  /\ (conversationId <> [] -> idText conversationId ->
      (forall c, hd_error rest = Some c -> isIdChar c = false) ->
      matchConversationId (lit "/c/" +++ conversationId +++ rest) = Some conversationId)
  /\ (includes path (lit "/c/") = false -> matchConversationId path = None).
Proof.
  split; [intros w; apply matchConversationId_some|].
  split; [apply matchConversationId_round|apply matchConversationId_none].
Qed.

Lemma conversation_id_round_trip_witness :
  matchConversationId (lit "/c/" +++ lit "6790-ab" +++ lit "?model=x") = Some (lit "6790-ab")
  /\ matchConversationId (lit "/gpts") = None.
Proof.
  pose proof (conversation_id_round_trip samplePage (lit "6790-ab") (lit "?model=x")
                (lit "/gpts")) as (_ & Hround & Hnone).
  split.
  - apply Hround.
    + discriminate.
    + repeat constructor.
    + intros c Hc. injection Hc as <-. reflexivity.
  - apply Hnone. reflexivity.
Defined.

Lemma startsWith_prefix (s p : jstring) :
  startsWith s p = true -> exists rest, s = p ++ rest.
Proof.
  revert s. induction p as [|c p IH]; intros s H; [now exists s|].
  destruct s as [|a s]; [discriminate H|]. simpl in H.
  apply andb_true_iff in H as [Ha H]. apply N.eqb_eq in Ha. subst a.
  destruct (IH s H) as [rest ->]. now exists rest.
Qed.

Lemma documentQuerySelectorAll_In (sel : list Node -> Node -> bool)
    (doc : list Node) (n : Node) :
  In n (documentQuerySelectorAll sel doc) ->
  exists anc, In (anc, n) (elements doc) /\ sel anc n = true.
Proof.
  unfold documentQuerySelectorAll. intros H.
  apply in_map_iff in H as ([anc m] & E & Hin). simpl in E. subst m.
  apply filter_In in Hin as [Hin Hsel]. now exists anc.
Qed.

Lemma documentQuerySelector_found (sel : list Node -> Node -> bool)
    (doc : list Node) (anc : list Node) (n : Node) :
  In (anc, n) (elements doc) -> sel anc n = true ->
  documentQuerySelector sel doc <> None.
Proof.
  intros Hin Hsel. unfold documentQuerySelector, documentQuerySelectorAll.
  assert (H : In n (map snd (filter (fun p => sel (fst p) (snd p)) (elements doc)))).
  { apply in_map_iff. exists (anc, n). split; [reflexivity|].
    apply filter_In. now split. }
  destruct (map snd (filter (fun p => sel (fst p) (snd p)) (elements doc)));
    [contradiction|discriminate].
Qed.

(** Every link that [getAllConversationLinks] lists has the href [/c/]
    followed by its id and a title that is not empty; there is one link for
    each matching anchor of the sidebar; the link element is found again by
    the lookup of the batch run; and when the id is made of the characters
    of an id in a URL, the id read from the href is the id of the link, which
    is what the wait for the conversation compares. *)
Theorem conversation_links_wellformed (p : Page) (link : ConversationLink) :
  List.length (getAllConversationLinks p)
  = List.length (documentQuerySelectorAll conversationLinkSelector (document p))
  /\ (In link (getAllConversationLinks p) ->
      link_href link = lit "/c/" +++ link_id link
      /\ link_title link <> []
      /\ (selectorSafe (link_href link) = true ->
          findLinkElement (link_href link) p <> None)
      /\ (link_id link <> [] -> idText (link_id link) ->
          matchConversationId (link_href link) = Some (link_id link))).
Proof.
  split; [apply length_map|].
  intros Hin. unfold getAllConversationLinks in Hin.
  apply in_map_iff in Hin as (n & E & Hn).
  apply documentQuerySelectorAll_In in Hn as (anc & Hel & Hsel).
  unfold conversationLinkSelector in Hsel.
  apply andb_true_iff in Hsel as [Hsel Hnav].
  apply andb_true_iff in Hsel as [Htag Hhref].
  unfold attributeStartsWith in Hhref.
  destruct (getAttribute "href" n) as [h|] eqn:Hattr; [|discriminate].
  simpl in E.
  assert (Hh : exists rest, h = lit "/c/" ++ rest).
  { now apply startsWith_prefix. }
  destruct Hh as [rest ->].
  rewrite replaceFirst_prefix in E. subst link. cbn [link_href link_id link_title].
  split; [reflexivity|]. split.
  { unfold or_else. destruct (trim (textContent n)); discriminate. }
  split.
  { intros _. unfold findLinkElement.
    apply (documentQuerySelector_found _ _ anc n Hel).
    rewrite Htag. unfold attributeIs. rewrite Hattr.
    apply eqb_eq. reflexivity. }
  intros Hne Hid.
  rewrite <- (app_nil_r rest) at 1.
  apply matchConversationId_round; [exact Hne|exact Hid|].
  intros c Hc. discriminate Hc.
Qed.

Lemma conversation_links_wellformed_witness :
  link_href linkA = lit "/c/" +++ link_id linkA
  /\ link_title linkA <> []
  /\ findLinkElement (link_href linkA) samplePage <> None
  /\ matchConversationId (link_href linkA) = Some (link_id linkA).
Proof.
  destruct (proj2 (conversation_links_wellformed samplePage linkA))
    as (Hhref & Htitle & Hfind & Hid); [simpl; now left|].
  split; [exact Hhref|]. split; [exact Htitle|].
  split; [apply Hfind; reflexivity|].
  apply Hid; [discriminate|repeat constructor].
Defined.

(** ** The title of the conversation *)

Lemma stripIgnoringCase_length (pat s rest : jstring) :
  stripIgnoringCase pat s = Some rest -> List.length s = List.length pat + List.length rest.
Proof.
  revert s. induction pat as [|p pat IH]; intros s H; simpl in *.
  - now injection H as ->.
  - destruct s as [|c s]; [discriminate H|].
    destruct (canonical c =? canonical p)%N; [|discriminate H].
    simpl. now rewrite (IH s H).
Qed.

Lemma strip_mismatch (pat : jstring) (c : char) (s : jstring) :
  match pat with
  | p :: _ => (canonical c =? canonical p)%N = false
  | [] => False
  end ->
  stripIgnoringCase pat (c :: s) = None.
Proof. destruct pat as [|p pat]; [contradiction|]. intros H. simpl. now rewrite H. Qed.

(** A title of fewer than two characters is not valid, and a valid title
    matches none of the patterns.  The patterns for model names are not
    anchored at the end: a title that starts with [claude] in any letter
    case, with [GPT-4] or with [o3] is not valid whatever follows.  A title
    of two characters or more whose first character is not a digit and,
    letter case ignored, none of C, G, M, N, O is valid. *)
Theorem title_validity (t rest : jstring) (c : char) :
  (List.length t < 2 -> isValidTitle t = false)
  /\ (isValidTitle t = true -> 2 <= List.length t /\ matchesInvalidPattern t = false)
  /\ (stripIgnoringCase (lit "claude") t = Some rest -> isValidTitle t = false)
  /\ isValidTitle (lit "GPT-4" +++ rest) = false
  /\ isValidTitle (lit "o3" +++ rest) = false
  /\ isValidTitle (lit "Claude" +++ rest) = false
  /\ (freeStart c = true -> rest <> [] -> isValidTitle (c :: rest) = true).
Proof.
  split.
  { intros H. unfold isValidTitle.
    replace (List.length t <? 2) with true by (symmetry; now apply Nat.ltb_lt).
    now rewrite orb_true_r. }
  split.
  { unfold isValidTitle. intros H.
    destruct (negb (truthy t) || (List.length t <? 2)) eqn:E; [discriminate H|].
    apply orb_false_iff in E as [_ E]. apply Nat.ltb_ge in E.
    split; [exact E|]. now apply negb_true_iff. }
  split.
  { intros H. pose proof (stripIgnoringCase_length _ _ _ H) as Hlen.
    simpl in Hlen. unfold isValidTitle.
    destruct t as [|a t]; [reflexivity|]. simpl truthy. simpl negb.
    replace (List.length (a :: t) <? 2) with false
      by (symmetry; apply Nat.ltb_ge; lia).
    simpl orb. cbv iota. unfold matchesInvalidPattern, startsIgnoringCase.
    rewrite H. now rewrite !orb_true_r. }
  split; [reflexivity|]. split; [reflexivity|]. split; [reflexivity|].
  intros Hfree Hrest. unfold freeStart in Hfree.
  apply andb_true_iff in Hfree as [Hdigit Hletter].
  apply negb_true_iff in Hdigit, Hletter.
  simpl in Hletter.
  repeat (apply orb_false_iff in Hletter as [? Hletter]).
  repeat match goal with
         | H : (_ =? canonical c)%N = false |- _ => rewrite N.eqb_sym in H
         end.
  destruct rest as [|b rest]; [congruence|].
  unfold isValidTitle. simpl truthy. simpl negb. simpl orb. cbv iota.
  apply negb_true_iff.
  assert (N1 : isIgnoringCase "ChatGPT" (c :: b :: rest) = false)
    by (unfold isIgnoringCase;
        now rewrite (strip_mismatch (lit "ChatGPT") c (b :: rest))).
  assert (N2 : isIgnoringCase "New chat" (c :: b :: rest) = false)
    by (unfold isIgnoringCase;
        now rewrite (strip_mismatch (lit "New chat") c (b :: rest))).
  assert (N3 : looksLikeGpt (c :: b :: rest) = false)
    by (unfold looksLikeGpt;
        now rewrite (strip_mismatch (lit "GPT") c (b :: rest))).
  assert (N4 : isNumber (c :: b :: rest) = false)
    by (unfold isNumber; simpl takeWhile; now rewrite Hdigit).
  assert (N5 : looksLikeO (c :: b :: rest) = false)
    by (unfold looksLikeO;
        now rewrite (strip_mismatch (lit "o") c (b :: rest))).
  assert (N6 : startsIgnoringCase "claude" (c :: b :: rest) = false)
    by (unfold startsIgnoringCase;
        now rewrite (strip_mismatch (lit "claude") c (b :: rest))).
  assert (N7 : isIgnoringCase "model" (c :: b :: rest) = false)
    by (unfold isIgnoringCase;
        now rewrite (strip_mismatch (lit "model") c (b :: rest))).
  unfold matchesInvalidPattern. now rewrite N1, N2, N3, N4, N5, N6, N7.
Qed.

Lemma title_validity_witness :
  isValidTitle (lit "x") = false
  /\ (2 <= List.length (lit "My trip") /\ matchesInvalidPattern (lit "My trip") = false)
  /\ isValidTitle (lit "CLAUDE monet") = false
  /\ isValidTitle (lit "Trip to Rome") = true.
Proof.
  pose proof (title_validity (lit "x") [] 0%N) as (Hshort & _).
  pose proof (title_validity (lit "My trip") [] 0%N) as (_ & Hvalid & _).
  pose proof (title_validity (lit "CLAUDE monet") (lit " monet") 0%N)
    as (_ & _ & Hclaude & _).
  pose proof (title_validity [] (lit "rip to Rome") 84%N)
    as (_ & _ & _ & _ & _ & _ & Hfree).
  split; [apply Hshort; simpl; lia|].
  split; [apply Hvalid; reflexivity|].
  split; [apply Hclaude; reflexivity|].
  apply Hfree; [reflexivity|discriminate].
Defined.

Lemma firstResult_some {A B} (f : A -> option B) (l : list A) (y : B) :
  firstResult f l = Some y -> exists x, In x l /\ f x = Some y.
Proof.
  induction l as [|x l IH]; simpl; [discriminate|].
  destruct (f x) as [z|] eqn:E.
  - intros H. injection H as ->. exists x. split; [now left|exact E].
  - intros H. destruct (IH H) as (x' & Hin & Hx). exists x'. split; [now right|exact Hx].
Qed.

Lemma validTitleOf_valid (n : Node) (t : jstring) :
  validTitleOf n = Some t -> isValidTitle t = true.
Proof.
  unfold validTitleOf. destruct (isValidTitle (trim (textContent n))) eqn:E;
    [|discriminate].
  intros H. now injection H as <-.
Qed.

Lemma isValidTitle_nonempty (t : jstring) : isValidTitle t = true -> t <> [].
Proof. intros H ->. discriminate H. Qed.

Lemma titleFromActiveLink_valid (p : Page) (t : jstring) :
  titleFromActiveLink p = Some t -> isValidTitle t = true.
Proof.
  unfold titleFromActiveLink. intros H.
  apply firstResult_some in H as (selector & _ & H).
  destruct (documentQuerySelector selector (document p)) as [link|]; [|discriminate].
  destruct (getConversationIdFromUrl p) as [cid|]; [|discriminate].
  destruct (getAttribute "href" link) as [h|]; [|discriminate].
  destruct (truthy cid && truthy h && includes h cid); [|discriminate].
  now apply validTitleOf_valid in H.
Qed.

Lemma titleFromMatchingLink_valid (p : Page) (t : jstring) :
  titleFromMatchingLink p = Some t -> isValidTitle t = true.
Proof.
  unfold titleFromMatchingLink. intros H.
  destruct (getConversationIdFromUrl p) as [cid|]; [|discriminate].
  destruct (truthy cid); [|discriminate].
  destruct (documentQuerySelector _ (document p)) as [link|]; [|discriminate].
  now apply validTitleOf_valid in H.
Qed.

Lemma titleFromHeader_valid (p : Page) (t : jstring) :
  titleFromHeader p = Some t -> isValidTitle t = true.
Proof.
  unfold titleFromHeader. intros H.
  apply firstResult_some in H as (selector & _ & H).
  destruct (documentQuerySelector selector (document p)) as [e|]; [|discriminate].
  now apply validTitleOf_valid in H.
Qed.

Lemma replaceEach_one_length (p : char -> bool) (r : char) (s : jstring) :
  List.length (replaceEach p [r] s) = List.length s.
Proof.
  induction s as [|c s IH]; [reflexivity|].
  unfold replaceEach in *. simpl. rewrite length_app, IH. now destruct (p c).
Qed.

Lemma replaceEach_one_clears (p : char -> bool) (r : char) (s : jstring) :
  p r = false -> Forall (fun c => p c = false) (replaceEach p [r] s).
Proof.
  intros Hr. induction s as [|c s IH]; [constructor|].
  unfold replaceEach in *. simpl. destruct (p c) eqn:E; simpl; constructor; auto.
Qed.

Lemma titleFromFirstMessage_short (p : Page) (t : jstring) :
  titleFromFirstMessage p = Some t ->
  t <> [] /\ List.length t <= 53 /\ Forall (fun c => isLineFeed c = false) t.
Proof.
  unfold titleFromFirstMessage.
  destruct (documentQuerySelector _ (document p)) as [message|]; [|discriminate].
  set (content := trim (textContent message)).
  destruct (truthy content) eqn:Hc; [|discriminate].
  intros H. injection H as <-.
  assert (Hlen : List.length (replaceEach isLineFeed (lit " ") (substring 0 50 content))
                 = Nat.min 50 (List.length content)).
  { rewrite (replaceEach_one_length isLineFeed 32%N). unfold substring. simpl skipn.
    now rewrite length_firstn. }
  split; [|split].
  - destruct content as [|a content]; [discriminate Hc|].
    intros E. apply (f_equal (@List.length char)) in E.
    rewrite length_app, Hlen in E. simpl in E. lia.
  - rewrite length_app, Hlen.
    destruct (50 <? List.length content);
      [change (List.length (lit "...")) with 3
      |change (List.length (@nil char)) with 0]; lia.
  - apply Forall_app. split.
    + now apply (replaceEach_one_clears isLineFeed 32%N).
    + destruct (50 <? List.length content); repeat constructor.
Qed.

(** The title of the conversation is never empty: it is a valid title taken
    from the sidebar or the header, or the start of the first user message,
    or the literal fallback.  A title taken from the first user message has
    at most 53 characters and no line feed. *)
Theorem conversation_title_never_empty (p : Page) :
  getConversationTitle p <> []
  /\ (isValidTitle (getConversationTitle p) = true
      \/ titleFromFirstMessage p = Some (getConversationTitle p)
      \/ getConversationTitle p = lit "Untitled Conversation")
  /\ (forall t, titleFromFirstMessage p = Some t ->
        t <> [] /\ List.length t <= 53 /\ Forall (fun c => isLineFeed c = false) t)
  /\ (forall t, titleFromActiveLink p = Some t ->
        getConversationTitle p = t /\ isValidTitle t = true).
Proof.
  assert (Hcases : isValidTitle (getConversationTitle p) = true
                   \/ titleFromFirstMessage p = Some (getConversationTitle p)
                   \/ getConversationTitle p = lit "Untitled Conversation").
  { unfold getConversationTitle.
    destruct (titleFromActiveLink p) as [t|] eqn:E1;
      [left; now apply (titleFromActiveLink_valid p)|].
    destruct (titleFromMatchingLink p) as [t|] eqn:E2;
      [left; now apply (titleFromMatchingLink_valid p)|].
    destruct (titleFromHeader p) as [t|] eqn:E3;
      [left; now apply (titleFromHeader_valid p)|].
    destruct (titleFromFirstMessage p) as [t|] eqn:E4; [now right; left|].
    now right; right. }
  split.
  - destruct Hcases as [H|[H|H]].
    + now apply isValidTitle_nonempty.
    + now apply titleFromFirstMessage_short in H.
    + rewrite H. discriminate.
  - split; [exact Hcases|]. split; [apply titleFromFirstMessage_short|].
    intros t H. split; [|now apply (titleFromActiveLink_valid p)].
    unfold getConversationTitle. now rewrite H.
Qed.

Lemma conversation_title_never_empty_witness :
  getConversationTitle samplePage = lit "First" /\ isValidTitle (lit "First") = true.
Proof.
  apply (conversation_title_never_empty samplePage). reflexivity.
Defined.

(** ** Extraction *)

Section ExtractionFacts.

Variable toLowerCase : jstring -> jstring.

Lemma messageOf_some (group : Node) (m : Message) :
  messageOf toLowerCase group = Some m ->
  (role m = lit "user" \/ role m = lit "assistant")
  /\ content m <> []
  /\ trimmed (content m).
Proof.
  unfold messageOf.
  destruct (getAttribute "data-message-author-role" group) as [r|]; [|discriminate].
  destruct (negb (truthy r) || (negb (r == "user") && negb (r == "assistant"))) eqn:Hr;
    [discriminate|].
  destruct (Dom.querySelector _ group) as [contentElement|]; [|discriminate].
  assert (Hh : trimmed (htmlToMarkdown toLowerCase [] (Some contentElement)))
    by apply trim_trimmed.
  set (h := htmlToMarkdown toLowerCase [] (Some contentElement)) in *.
  destruct (truthy (trim h)) eqn:Ht; [|discriminate].
  intros H. injection H as <-. cbn [role content].
  apply orb_false_iff in Hr as [_ Hr].
  split; [|split; [|exact Hh]].
  - destruct (r == "user") eqn:Eu; [left; now apply eqb_eq|].
    destruct (r == "assistant") eqn:Ea; [right; now apply eqb_eq|discriminate Hr].
  - rewrite (trim_of_trimmed h Hh) in Ht. intros E. rewrite E in Ht. discriminate Ht.
Qed.

(** An extracted conversation has at least one message; every message has
    the role [user] or [assistant], which the formatter heads User and
    Assistant, and a content that is not empty and neither starts nor ends
    with white space; its title is the title of the page, never empty, its
    id the id of the URL.  A page without message group gives no
    conversation. *)
Theorem extracted_conversation (today : jstring) (p : Page) (c : Conversation) :
  (extractCurrentConversation toLowerCase today p = Some c ->
   messages c <> []
   /\ Forall (fun m => ((role m = lit "user" /\ roleLabel m = lit "User")
                        \/ (role m = lit "assistant" /\ roleLabel m = lit "Assistant"))
                       /\ content m <> []
                       /\ trimmed (content m))
             (messages c)
   /\ title c = getConversationTitle p
   /\ title c <> []
   /\ id c = getConversationIdFromUrl p
   /\ date c = Some today
   /\ url c = Some (href p))
  /\ (documentQuerySelectorAll
        (fun _ n => isElement n && hasAttribute "data-message-author-role" n)
        (document p) = [] ->
      extractCurrentConversation toLowerCase today p = None).
Proof.
  split.
  - unfold extractCurrentConversation.
    set (groups := documentQuerySelectorAll _ (document p)).
    destruct (Nat.eqb (List.length groups) 0); [discriminate|].
    set (ms := flat_map _ groups).
    destruct (Nat.eqb (List.length ms) 0) eqn:Hlen; [discriminate|].
    intros H. injection H as <-. cbn [messages title id date url].
    split; [intros E; rewrite E in Hlen; discriminate Hlen|].
    split.
    + apply Forall_forall. intros m Hm. subst ms.
      apply in_flat_map in Hm as (g & _ & Hm).
      destruct (messageOf toLowerCase g) as [m'|] eqn:E; [|contradiction].
      destruct Hm as [<-|[]].
      destruct (messageOf_some g m' E) as (Hrole & Hcontent & Htrim).
      split; [|now split].
      unfold roleLabel. destruct Hrole as [Hr|Hr]; rewrite Hr; [left|right];
        now split.
    + repeat split. now apply conversation_title_never_empty.
  - intros H. unfold extractCurrentConversation. now rewrite H.
Qed.

End ExtractionFacts.

Lemma extracted_conversation_witness :
  exists c, extractCurrentConversation asciiLower (lit "2026-01-30") samplePage = Some c
            /\ List.length (messages c) = 2
            /\ title c = lit "First"
            /\ id c = Some (lit "aaaa-1111").
Proof.
  destruct (extractCurrentConversation asciiLower (lit "2026-01-30") samplePage)
    as [c|] eqn:E; [|vm_compute in E; discriminate E].
  exists c. split; [reflexivity|].
  destruct (proj1 (extracted_conversation asciiLower (lit "2026-01-30") samplePage c) E)
    as (_ & _ & Htitle & _ & Hid & _).
  split; [|split].
  - vm_compute in E. injection E as <-. reflexivity.
  - rewrite Htitle. reflexivity.
  - rewrite Hid. reflexivity.
Defined.

(** ** Waiting for a conversation *)

Lemma waitLoop_unfold (fuel : nat) (poll : nat -> Poll) (startTime timeout : nat)
    (expectedId : jstring) (k : nat) :
  waitLoop (S fuel) poll startTime timeout expectedId k
  = if clock (poll k) <? startTime + timeout then
      if loadedAt poll expectedId k then Some (true, S k)
      else waitLoop fuel poll startTime timeout expectedId (S k)
    else Some (false, k).
Proof. reflexivity. Qed.

Lemma clock_advances (poll : nat -> Poll) :
  (forall k, clock (poll k) + 200 <= clock (poll (S k))) ->
  forall k j, k <= j -> clock (poll k) + 200 * (j - k) <= clock (poll j).
Proof.
  intros Hstep k j Hle. induction Hle as [|j Hle IH].
  - rewrite Nat.sub_diag. lia.
  - specialize (Hstep j). replace (S j - k) with (S (j - k)) by lia. lia.
Qed.

Lemma waitLoop_spec (poll : nat -> Poll) (startTime timeout bound : nat)
    (expectedId : jstring) :
  (forall k, clock (poll k) + 200 <= clock (poll (S k))) ->
  startTime <= clock (poll 0) ->
  timeout <= 200 * bound ->
  forall fuel k,
    bound <= k + fuel -> k <= bound ->
    exists result turns,
      waitLoop fuel poll startTime timeout expectedId k = Some (result, turns)
      /\ k <= turns <= bound
      /\ (result = true ->
          exists j, turns = S j /\ k <= j /\ loadedAt poll expectedId j = true
                    /\ clock (poll j) < startTime + timeout)
      /\ (result = false ->
          forall j, k <= j -> clock (poll j) < startTime + timeout ->
                    loadedAt poll expectedId j = false).
Proof.
  intros Hstep Hstart Hbound.
  pose proof (clock_advances poll Hstep) as Hadv.
  assert (Hlate : forall k, bound <= k -> startTime + timeout <= clock (poll k)).
  { intros k Hk. specialize (Hadv 0 k ltac:(lia)). rewrite Nat.sub_0_r in Hadv. nia. }
  induction fuel as [|fuel IH]; intros k Hfuel Hk.
  - assert (k = bound) by lia. subst k. exists false, bound. simpl.
    replace (clock (poll bound) <? startTime + timeout) with false
      by (symmetry; apply Nat.ltb_ge; apply Hlate; lia).
    split; [reflexivity|]. split; [lia|]. split; [discriminate|].
    intros _ j Hj Hc. specialize (Hlate j Hj). lia.
  - rewrite waitLoop_unfold.
    destruct (Nat.ltb_spec (clock (poll k)) (startTime + timeout)) as [Hin|Hout].
    + assert (Hk' : k < bound).
      { destruct (Nat.lt_ge_cases k bound) as [H|H]; [exact H|].
        specialize (Hlate k H). lia. }
      destruct (loadedAt poll expectedId k) eqn:Hloaded.
      * exists true, (S k). split; [reflexivity|]. split; [lia|].
        split; [|discriminate]. intros _. exists k. repeat split; auto.
      * destruct (IH (S k) ltac:(lia) ltac:(lia)) as (r & t & Hr & Ht & Htrue & Hfalse).
        exists r, t. split; [exact Hr|]. split; [lia|]. split.
        -- intros E. destruct (Htrue E) as (j & ? & ? & ? & ?).
           exists j. repeat split; auto. lia.
        -- intros E j Hj Hc. destruct (Nat.eq_dec j k) as [->|Hne]; [exact Hloaded|].
           apply (Hfalse E); [lia|exact Hc].
    + exists false, k. split; [reflexivity|]. split; [lia|]. split; [discriminate|].
      intros _ j Hj Hc. specialize (Hadv k j Hj). lia.
Qed.

(** When every turn of the polling loop takes at least the 200 ms of its
    sleep, the wait for a conversation ends after at most [bound] turns
    for a timeout of at most [200 * bound] ms (50 turns for the default
    of 10 s), given fuel for that many turns.  It answers [true] exactly
    on the first turn, within the timeout, that sees the expected id in
    the URL and at least one message group, and [false] when no turn
    within the timeout sees them. *)
Theorem wait_bounded (poll : nat -> Poll) (startTime timeout bound fuel : nat)
    (expectedId : jstring) :
  (forall k, clock (poll k) + 200 <= clock (poll (S k))) ->
  startTime <= clock (poll 0) ->
  timeout <= 200 * bound ->
  bound <= fuel ->
  exists result turns,
    waitForConversationLoad fuel poll startTime expectedId timeout = Some (result, turns)
    /\ turns <= bound
    /\ (result = true ->
        exists j, turns = S j
                  /\ loadedAt poll expectedId j = true
                  /\ clock (poll j) < startTime + timeout
                  /\ forall i, i < j -> loadedAt poll expectedId i = false)
    /\ (result = false ->
        forall j, clock (poll j) < startTime + timeout ->
                  loadedAt poll expectedId j = false).
Proof.
  intros Hstep Hstart Hbound Hfuel. unfold waitForConversationLoad.
  destruct (waitLoop_spec poll startTime timeout bound expectedId Hstep Hstart Hbound fuel 0)
    as (r & t & Hr & Ht & Htrue & Hfalse); try lia.
  exists r, t. split; [exact Hr|]. split; [lia|]. split.
  - intros E. destruct (Htrue E) as (j & Hj & _ & Hloaded & Hclock).
    exists j. split; [exact Hj|]. split; [exact Hloaded|]. split; [exact Hclock|].
    subst r t. clear Htrue Hfalse Ht.
    assert (Hpass : forall fuel k,
              waitLoop fuel poll startTime timeout expectedId k = Some (true, S j) ->
              forall i, k <= i -> i < j -> loadedAt poll expectedId i = false).
    { clear. induction fuel as [|fuel IH]; intros k H i Hki Hij.
      - simpl in H. destruct (clock (poll k) <? startTime + timeout); discriminate H.
      - rewrite waitLoop_unfold in H.
        destruct (clock (poll k) <? startTime + timeout); [|discriminate H].
        destruct (loadedAt poll expectedId k) eqn:Hk.
        + injection H as H. lia.
        + destruct (Nat.eq_dec i k) as [->|Hne]; [exact Hk|].
          apply (IH (S k) H); lia. }
    intros i Hi. apply (Hpass fuel 0 Hr i); lia.
  - intros E j Hc. apply (Hfalse E); [lia|exact Hc].
Qed.

Lemma wait_bounded_witness :
  exists result turns,
    waitForConversationLoad 80 slowPoll 1000 (link_id linkA) (200 * 50) = Some (result, turns)
    /\ turns <= 50.
Proof.
  destruct (wait_bounded slowPoll 1000 (200 * 50) 50 80 (link_id linkA))
    as (r & t & Hr & Ht & _); try lia.
  - intros k. unfold slowPoll. cbn [clock]. lia.
  - unfold slowPoll. cbn [clock]. lia.
  - exists r, t. now split.
Defined.

(** ** Auto-sync *)

Import Watcher.

Lemma run_app (events more : list Event) (s : Sync) :
  run (events ++ more) s = run more (run events s).
Proof. apply fold_left_app. Qed.

Lemma filter_shorter (A : Type) (f : A -> bool) (l : list A) :
  List.length (filter f l) <= List.length l.
Proof.
  induction l as [|a l IH]; simpl; [lia|]. destruct (f a); simpl; lia.
Qed.

Lemma clearTimeout_shorter (id : option nat) (waiting : list nat) :
  List.length (clearTimeout id waiting) <= List.length waiting.
Proof. destruct id; simpl; [apply filter_shorter|lia]. Qed.

Lemma fired_timer_removed (id : nat) (waiting : list nat) :
  existsb (fun u => u =? id) waiting = true ->
  List.length (filter (fun u => negb (u =? id)) waiting) < List.length waiting.
Proof.
  induction waiting as [|u waiting IH]; simpl; [discriminate|].
  destruct (u =? id); simpl.
  - intros _. pose proof (filter_shorter _ (fun u => negb (u =? id)) waiting). lia.
  - intros H. specialize (IH H). lia.
Qed.

Lemma debounced_step (s : Sync) (e : Event) : debounced s -> debounced (step s e).
Proof.
  unfold debounced. intros H.
  destruct e as [container count| |response|container count|container count|n|id];
    simpl.
  - destruct container; exact H.
  - exact H.
  - destruct response as [[|]|]; exact H.
  - destruct container; exact H.
  - unfold urlChanged. destruct (autoSyncEnabled s); [|exact H].
    destruct container; exact H.
  - unfold mutation. destruct (observer s) as [[|]|]; try exact H.
    unfold mutationCallback. destruct (autoSyncEnabled s); simpl; [|exact H].
    destruct (lastMessageCount s <? n); [|exact H].
    right. exists (nextTimer s). cbn [autoSyncTimeout timers]. split; [reflexivity|].
    destruct H as [H|(t & Ht & H)]; rewrite H.
    + now destruct (autoSyncTimeout s).
    + rewrite Ht. simpl. now rewrite Nat.eqb_refl.
  - unfold fire. destruct (existsb (fun u => u =? id) (timers s)); [|exact H].
    cbn [autoSyncTimeout timers].
    destruct H as [H|(t & Ht & H)]; rewrite H.
    + now left.
    + simpl. destruct (t =? id); simpl; [now left|].
      right. exists t. now split.
Qed.

Lemma exports_step (s : Sync) (e : Event) :
  exportsStarted (step s e) + List.length (timers (step s e))
  <= exportsStarted s + List.length (timers s) + reports [e]
  /\ exportsStarted (step s e) <= exportsStarted s + due [e]
  /\ exportsStarted s <= exportsStarted (step s e).
Proof.
  destruct e as [container count| |response|container count|container count|n|id];
    simpl.
  - destruct container; simpl; lia.
  - lia.
  - destruct response as [[|]|]; simpl; lia.
  - destruct container; simpl; lia.
  - unfold urlChanged. destruct (autoSyncEnabled s); [|lia].
    destruct container; simpl; lia.
  - unfold mutation. destruct (observer s) as [[|]|]; try (unfold reports; simpl; lia).
    unfold mutationCallback.
    destruct (autoSyncEnabled s); simpl; [|unfold reports; simpl; lia].
    destruct (lastMessageCount s <? n); [|unfold reports; simpl; lia].
    cbn [exportsStarted timers]. rewrite length_app.
    pose proof (clearTimeout_shorter (autoSyncTimeout s) (timers s)).
    unfold reports, due. simpl. lia.
  - unfold fire. destruct (existsb (fun u => u =? id) (timers s)) eqn:E;
      [|unfold reports, due; simpl; lia].
    cbn [exportsStarted timers].
    pose proof (fired_timer_removed id (timers s) E).
    unfold reports, due. simpl. lia.
Qed.

Lemma reports_cons (e : Event) (events : list Event) :
  reports (e :: events) = reports [e] + reports events.
Proof. unfold reports. simpl. destruct e; reflexivity. Qed.

Lemma due_cons (e : Event) (events : list Event) :
  due (e :: events) = due [e] + due events.
Proof. unfold due. simpl. destruct e; reflexivity. Qed.

Lemma exports_run (events : list Event) (s : Sync) :
  exportsStarted (run events s) + List.length (timers (run events s))
  <= exportsStarted s + List.length (timers s) + reports events
  /\ exportsStarted (run events s) <= exportsStarted s + due events
  /\ exportsStarted s <= exportsStarted (run events s).
Proof.
  revert s. induction events as [|e events IH]; intros s.
  - unfold reports, due. simpl. lia.
  - change (run (e :: events) s) with (run events (step s e)).
    rewrite reports_cons, due_cons.
    pose proof (IH (step s e)). pose proof (exports_step s e). lia.
Qed.

(** Auto-sync is debounced.  Whatever happens to the content script after
    it is loaded, at most one debounce timer waits at any time, the one
    whose id [window.autoSyncTimeout] holds.  The exports that timers have
    started, together with the timer that waits, are at most as many as the
    mutation reports, and at most as many exports started as timers came
    due. *)
Theorem auto_sync_debounced (events : list Event) :
  let s := run events initial in
  debounced s
  /\ List.length (timers s) <= 1
  /\ exportsStarted s + List.length (timers s) <= reports events
  /\ exportsStarted s <= due events.
Proof.
  cbv zeta.
  assert (Hd : forall evs s, debounced s -> debounced (run evs s)).
  { induction evs as [|e evs IH]; intros s H; [exact H|].
    apply (IH (step s e)). now apply debounced_step. }
  pose proof (Hd events initial (or_introl eq_refl)) as H.
  split; [exact H|]. split.
  { destruct H as [H|(t & _ & H)]; rewrite H; simpl; lia. }
  pose proof (exports_run events initial) as (H1 & H2 & _).
  simpl in H1, H2. split; lia.
Qed.

Lemma quiet_step (s : Sync) (e : Event) :
  enables e = false -> autoSyncEnabled s = false ->
  autoSyncEnabled (step s e) = false
  /\ nextTimer (step s e) = nextTimer s
  /\ exportsStarted (step s e) + List.length (timers (step s e))
     <= exportsStarted s + List.length (timers s).
Proof.
  intros He Hs.
  destruct e as [container count| |response|container count|container count|n|id];
    simpl in *; try discriminate He.
  - (simpl; repeat split; auto; lia).
  - destruct response as [[|]|]; try discriminate He; (simpl; repeat split; auto; lia).
  - destruct container; simpl; (simpl; repeat split; auto; lia).
  - unfold urlChanged. rewrite Hs. (simpl; repeat split; auto; lia).
  - unfold mutation. destruct (observer s) as [[|]|]; try ((simpl; repeat split; auto; lia)).
    unfold mutationCallback. rewrite Hs. simpl. (simpl; repeat split; auto; lia).
  - unfold fire. destruct (existsb (fun u => u =? id) (timers s)) eqn:E;
      [|(simpl; repeat split; auto; lia)].
    cbn [autoSyncEnabled nextTimer exportsStarted timers].
    pose proof (fired_timer_removed id (timers s) E).
    split; [exact Hs|]. split; [reflexivity|]. lia.
Qed.

(** After auto-sync is switched off, and until something switches it on
    again, no debounce timer is set and no mutation is acted on: the only
    export that can still start is the one of a timer that was waiting
    when auto-sync was switched off. *)
Theorem disabled_sets_no_timer (s : Sync) (events : list Event) :
  forallb (fun e => negb (enables e)) events = true ->
  let s' := run events (disableAutoSync s) in
  autoSyncEnabled s' = false
  /\ nextTimer s' = nextTimer s
  /\ exportsStarted s' + List.length (timers s')
     <= exportsStarted s + List.length (timers s).
Proof.
  intros Hq. cbv zeta.
  assert (Hrun : forall evs s0,
            forallb (fun e => negb (enables e)) evs = true ->
            autoSyncEnabled s0 = false ->
            autoSyncEnabled (run evs s0) = false
            /\ nextTimer (run evs s0) = nextTimer s0
            /\ exportsStarted (run evs s0) + List.length (timers (run evs s0))
               <= exportsStarted s0 + List.length (timers s0)).
  { induction evs as [|e evs IH]; intros s0 Hall H0.
    - simpl. repeat split; auto.
    - simpl in Hall. apply andb_true_iff in Hall as [He Hall].
      apply negb_true_iff in He.
      destruct (quiet_step s0 e He H0) as (Ha & Hb & Hc).
      change (run (e :: evs) s0) with (run evs (step s0 e)).
      destruct (IH (step s0 e) Hall Ha) as (Ha' & Hb' & Hc').
      split; [exact Ha'|]. split; [congruence|]. lia. }
  apply (Hrun events (disableAutoSync s) Hq). reflexivity.
Qed.

Lemma disabled_sets_no_timer_witness :
  let s' := run [Mutation 9; Fire 1; UrlChanged true 0; Mutation 10]
                (disableAutoSync waitingSync) in
  autoSyncEnabled s' = false
  /\ nextTimer s' = nextTimer waitingSync
  /\ exportsStarted s' + List.length (timers s')
     <= exportsStarted waitingSync + List.length (timers waitingSync).
Proof.
  apply (disabled_sets_no_timer waitingSync
           [Mutation 9; Fire 1; UrlChanged true 0; Mutation 10]).
  reflexivity.
Defined.

(** Switching auto-sync off does not clear the debounce timer: a timer
    that waits when [disableAutoSync] runs still comes due and starts an
    export, with auto-sync off. *)
Theorem disable_keeps_pending_export (s : Sync) (t : nat) :
  In t (timers s) ->
  let s' := fire t (disableAutoSync s) in
  timers (disableAutoSync s) = timers s
  /\ autoSyncEnabled s' = false
  /\ observer s' = None
  /\ exportsStarted s' = S (exportsStarted s).
Proof.
  intros Hin. cbv zeta. split; [reflexivity|].
  unfold fire. cbn [timers disableAutoSync].
  assert (E : existsb (fun u => u =? t) (timers s) = true).
  { apply existsb_exists. exists t. split; [exact Hin|apply Nat.eqb_refl]. }
  rewrite E. repeat split.
Qed.

Lemma disable_keeps_pending_export_witness :
  exportsStarted (fire 1 (disableAutoSync waitingSync)) = 1
  /\ autoSyncEnabled (fire 1 (disableAutoSync waitingSync)) = false.
Proof.
  destruct (disable_keeps_pending_export waitingSync 1) as (_ & Ha & _ & He).
  - simpl. now left.
  - split; [exact He|exact Ha].
Defined.

Lemma deliver_last (messages : list bool) (enabled : bool) (x : Extension) :
  storedAutoSync (deliver (messages ++ [enabled]) x) = Some enabled
  /\ Lifecycle.autoSyncEnabled (deliver (messages ++ [enabled]) x) = enabled.
Proof. unfold deliver. rewrite fold_left_app. simpl. now split. Qed.


(** ** The tally of a batch run *)

Lemma exportItem_results (i : nat) (e : ItemEnv) (link : ConversationLink)
    (st : BatchState) :
  results (exportItem i e link st)
  = if JSSet.has (exportedSet st) (link_id link) then countSkipped (results st)
    else match diagnosticOf e link with
         | Some diagnostic => countFailed diagnostic (results st)
         | None => countExported (results st)
         end.
Proof.
  unfold exportItem, diagnosticOf.
  destruct (JSSet.has (exportedSet st) (link_id link)); [reflexivity|].
  destruct (linkLookup e) as [| |message]; try reflexivity.
  destruct (loaded e); [|reflexivity]. cbn [negb].
  destruct (extracted e) as [conversation|]; [|reflexivity].
  destruct (reply e) as [message|outcome]; [reflexivity|].
  now destruct (downloadFile outcome _ _).
Qed.

(** A batch run over a non-empty list handles every candidate once, in
    order, and always ends with a tally.  The turn of candidate [i] takes
    the tally reached after the candidates before it and increments exactly
    one counter: [skipped] when the id is in the set of the run, otherwise
    [failed], with exactly one diagnostic appended, when the lookup throws
    or finds nothing, the conversation does not load or is not extracted,
    or the download message is not delivered, and [exported] in every other
    case, whatever the service worker answered.  The tally returned is the
    one reached after the last candidate: [total] is the number of
    candidates, the three counters add up to it, there are as many
    diagnostics as failures, and the run sends at most one download message
    for the candidate. *)
Theorem batch_run_tally (env : nat -> ItemEnv) (links : list ConversationLink)
    (w : World) (i : nat) (link : ConversationLink) :
  nth_error links i = Some link ->
  let st := stateAt env links w i in
  let st' := stateAt env links w (S i) in
  exists w' r,
    exportAllConversations env links w = (w', BatchSuccess r)
    /\ r = results (stateAt env links w (List.length links))
    /\ results (stateAt env links w 0)
       = {| total := List.length links; exported := 0; skipped := 0; failed := 0;
            errors := [] |}
    /\ results st'
       = (if JSSet.has (exportedSet st) (link_id link) then countSkipped (results st)
          else match diagnosticOf (env i) link with
               | Some diagnostic => countFailed diagnostic (results st)
               | None => countExported (results st)
               end)
    /\ counted (results st) (results st')
    /\ total r = List.length links
    /\ exported r + skipped r + failed r = List.length links
    /\ List.length (errors r) = failed r
    /\ sinkCalls i w' <= sinkCalls i w + 1.
Proof.
  intros Hnth st st'.
  assert (Hlen : i < List.length links) by (apply nth_error_Some; congruence).
  unfold exportAllConversations.
  destruct (Nat.eqb_spec (List.length links) 0) as [H0|_]; [lia|].
  eexists _, _. split; [reflexivity|].
  split; [now rewrite stateAt_end|]. split; [reflexivity|].
  assert (Hstep : st' = exportItem i (env i) link st) by (now apply stateAt_step).
  split; [rewrite Hstep; apply exportItem_results|].
  split; [rewrite Hstep; apply exportItem_counted|].
  destruct (exportLoop_tally env links 0 (initialState w links)) as (Htot & Hsum & Herr).
  destruct (sinkCalls_exportLoop env i links 0 (initialState w links)) as [_ Hhi].
  split; [exact Htot|]. split; [exact Hsum|]. split; [now apply Herr|].
  change (world (initialState w links)) with w in Hhi.
  destruct (Nat.leb 0 i && Nat.ltb i (0 + List.length links)); lia.
Qed.

Lemma batch_run_tally_witness :
  exists w' r,
    exportAllConversations failingEnv [linkA; linkB; linkC] emptyWorld
    = (w', BatchSuccess r)
    /\ results (stateAt failingEnv [linkA; linkB; linkC] emptyWorld 2)
       = countFailed (lit "Link not found: Second")
           (results (stateAt failingEnv [linkA; linkB; linkC] emptyWorld 1))
    /\ exported r + skipped r + failed r = 3
    /\ List.length (errors r) = failed r.
Proof.
  destruct (batch_run_tally failingEnv [linkA; linkB; linkC] emptyWorld 1 linkB eq_refl)
    as (w' & r & Hrun & _ & _ & Hturn & _ & _ & Hsum & Herr & _).
  exists w', r. split; [exact Hrun|]. split; [exact Hturn|]. now split.
Defined.
